(** * VoiceOperatedCamera: a shallow embedding of [src/VoiceOperatedCamera.tsx]

    The React component is modelled by explicit state passing.  Every
    [useState] cell and every [useRef] cell of the component is a field of
    [State]; the browser objects the handlers touch (the video element, the
    canvas, the media tracks, the speech synthesiser, the console and the
    queue of pending [detect] continuations) are fields of the same record.
    What the browser decides (whether [getUserMedia] resolves, what the
    perception providers answer) is an explicit argument of the handler.

    Strings are [string] over 8-bit characters: [toLowerCase] and [trim]
    act on the ASCII range, which is where the two command phrases live.
    Scores, coordinates and sizes are rationals ([Q]); not-a-number and the
    rounding of binary floating point are outside the embedding. *)

From Stdlib Require Import String Ascii List Bool Arith ZArith QArith Qround Qabs Lia.
From Stdlib Require Import DecimalString.
Import ListNotations.
Local Open Scope string_scope.

(* ================================================================== *)
(** ** JavaScript string operations used by the component *)
(* ================================================================== *)

Module JsString.

(** [String.prototype.toLowerCase] on the ASCII range. *)
Definition lower_char (c : ascii) : ascii :=
  let n := nat_of_ascii c in
  if (65 <=? n)%nat && (n <=? 90)%nat then ascii_of_nat (n + 32) else c.

Fixpoint toLowerCase (s : string) : string :=
  match s with
  | EmptyString => EmptyString
  | String c s' => String (lower_char c) (toLowerCase s')
  end.

(** White space and line terminators of the ASCII range: TAB, LF, VT, FF,
    CR and SPACE. *)
Definition is_space (c : ascii) : bool :=
  let n := nat_of_ascii c in
  ((9 <=? n)%nat && (n <=? 13)%nat) || (n =? 32)%nat.

Fixpoint trimStart (s : string) : string :=
  match s with
  | EmptyString => EmptyString
  | String c s' => if is_space c then trimStart s' else s
  end.

Fixpoint trimEnd (s : string) : string :=
  match s with
  | EmptyString => EmptyString
  | String c s' =>
      match trimEnd s' with
      | EmptyString => if is_space c then EmptyString else String c EmptyString
      | t => String c t
      end
  end.

(** [String.prototype.trim]. *)
Definition trim (s : string) : string := trimStart (trimEnd s).

(** [s.includes(needle)]: [needle] occurs at some position of [s]. *)
Fixpoint includes (s needle : string) {struct s} : bool :=
  prefix needle s ||
  match s with
  | EmptyString => false
  | String _ s' => includes s' needle
  end.

(** A string made of white space only. *)
Fixpoint all_space (s : string) : bool :=
  match s with
  | EmptyString => true
  | String c s' => is_space c && all_space s'
  end.

(** The declarative reading of containment. *)
Definition occurs_in (needle s : string) : Prop :=
  exists pre post, s = pre ++ needle ++ post.

End JsString.

Import JsString.

(* ================================================================== *)
(** ** Numbers *)
(* ================================================================== *)

Module JsNumber.

(** The strict comparison [x > y]. *)
Definition gtb (x y : Q) : bool := negb (Qle_bool x y).

(** [Math.round]: the nearest integer, halves going up. *)
Definition Math_round (x : Q) : Z := Qfloor (x + (1 # 2)).

Definition string_of_Z (z : Z) : string :=
  NilZero.string_of_int (Z.to_int z).

Definition two_digits (n : Z) : string :=
  if (n <? 10)%Z then "0" ++ string_of_Z n else string_of_Z n.

(** [x.toFixed(2)]: the nearest multiple of 1/100 (the larger one of two
    candidates), printed with exactly two decimals. *)
Definition toFixed2 (x : Q) : string :=
  let n := Qfloor (Qabs x * 100 + (1 # 2)) in
  (if gtb 0 x then "-" else "")
    ++ string_of_Z (n / 100) ++ "." ++ two_digits (n mod 100).

End JsNumber.

Import JsNumber.

(* ================================================================== *)
(** ** Data model *)
(* ================================================================== *)

Record Rect := { x : Q; y : Q; width : Q; height : Q }.

(** What [resizeResults] hands to the loop for one face: the detection box,
    the landmark points and the expressions object.  The expressions object
    is kept as the ordered list of its own enumerable properties, which is
    the order [Object.keys] reports. *)
Record FaceDetection := {
  box : Rect;
  landmarks : list (Q * Q);
  expressions : list (string * Q)
}.

(** One prediction of the object detector. *)
Record ObjectDetection := {
  bbox : Rect;
  class : string;
  score : Q
}.

(** A [MediaStream] is known by the identifiers of its tracks. *)
Record MediaStream := { getTracks : list nat }.

(** An awaited promise either resolves with a value or rejects. *)
Inductive Settled (A : Type) : Type :=
| Resolved (a : A)
| Rejected.
Arguments Resolved {A} a.
Arguments Rejected {A}.

(** The [<video>] element, as far as the component reads or writes it.
    Its size and its [ended] flag are the browser's to change. *)
Record Video := {
  srcObject : option MediaStream;
  paused : bool;
  ended : bool;
  videoWidth : Z;
  videoHeight : Z
}.

(** What has been painted on the overlay since it was last cleared. *)
Inductive DrawOp :=
| DrawDetections (faces : list FaceDetection)
| DrawFaceLandmarks (faces : list FaceDetection)
| DrawFaceExpressions (faces : list FaceDetection)
| FillText (fillStyle font text : string) (tx ty : Q)
| StrokeRect (strokeStyle : string) (lineWidth : Z) (r : Rect).

(** The [<canvas>] element: its size and the paint on it. *)
Record Canvas := {
  cwidth : Z;
  cheight : Z;
  content : list DrawOp
}.

Inductive SpeechEvent :=
| Cancel
| Speak (utterance : string).

Inductive ObjectDetectionModel := CocoSsd.

(** The values of [modelsLoaded] and [cocoModel] a handler closes over: the
    ones of the render in which the handler was created. *)
Record Render := {
  r_modelsLoaded : bool;
  r_cocoModel : option ObjectDetectionModel
}.

(** Where a [detect] call is suspended. *)
Inductive Pending :=
| AwaitFaces      (* [await faceapi.detectAllFaces(...)...]  *)
| AwaitObjects    (* [await cocoModel.detect(video)]          *)
| AwaitFrame.     (* [requestAnimationFrame(detect)]          *)

(** One detection loop: the closure [detectLoop] built and the point at
    which its current [detect] call waits. *)
Record Loop := {
  closure : Render;
  displaySize : Z * Z;
  pending : Pending
}.

(** The component, mounted: both refs point at their elements. *)
Record State := {
  video : Video;
  canvas : Canvas;
  isCameraOn : bool;
  statusMessage : string;
  expression : string;
  modelsLoaded : bool;
  cocoModel : option ObjectDetectionModel;
  lastSpokenExpression : string;
  stoppedTracks : list nat;      (* tracks on which [stop()] was called *)
  speech : list SpeechEvent;     (* calls made on [speechSynthesis]     *)
  console : list string;         (* lines written to the console        *)
  loops : list Loop              (* detection loops still running       *)
}.

Definition initialState (v : Video) (c : Canvas) : State := {|
  video := v;
  canvas := c;
  isCameraOn := false;
  statusMessage := "Say 'start camera' or use the buttons";
  expression := "";
  modelsLoaded := false;
  cocoModel := None;
  lastSpokenExpression := "";
  stoppedTracks := [];
  speech := [];
  console := [];
  loops := []
|}.

(** A freshly mounted page: no stream attached, an empty 640 x 480 overlay. *)
Definition blankVideo : Video :=
  {| srcObject := None; paused := true; ended := false;
     videoWidth := 0; videoHeight := 0 |}.
Definition blankCanvas : Canvas :=
  {| cwidth := 640; cheight := 480; content := [] |}.
Definition mounted : State := initialState blankVideo blankCanvas.

(** *** Field updates *)

Definition set_video (v : Video) (st : State) : State :=
  {| video := v; canvas := canvas st; isCameraOn := isCameraOn st;
     statusMessage := statusMessage st; expression := expression st;
     modelsLoaded := modelsLoaded st; cocoModel := cocoModel st;
     lastSpokenExpression := lastSpokenExpression st;
     stoppedTracks := stoppedTracks st; speech := speech st;
     console := console st; loops := loops st |}.

Definition set_canvas (c : Canvas) (st : State) : State :=
  {| video := video st; canvas := c; isCameraOn := isCameraOn st;
     statusMessage := statusMessage st; expression := expression st;
     modelsLoaded := modelsLoaded st; cocoModel := cocoModel st;
     lastSpokenExpression := lastSpokenExpression st;
     stoppedTracks := stoppedTracks st; speech := speech st;
     console := console st; loops := loops st |}.

Definition setIsCameraOn (b : bool) (st : State) : State :=
  {| video := video st; canvas := canvas st; isCameraOn := b;
     statusMessage := statusMessage st; expression := expression st;
     modelsLoaded := modelsLoaded st; cocoModel := cocoModel st;
     lastSpokenExpression := lastSpokenExpression st;
     stoppedTracks := stoppedTracks st; speech := speech st;
     console := console st; loops := loops st |}.

Definition setStatusMessage (m : string) (st : State) : State :=
  {| video := video st; canvas := canvas st; isCameraOn := isCameraOn st;
     statusMessage := m; expression := expression st;
     modelsLoaded := modelsLoaded st; cocoModel := cocoModel st;
     lastSpokenExpression := lastSpokenExpression st;
     stoppedTracks := stoppedTracks st; speech := speech st;
     console := console st; loops := loops st |}.

Definition setExpression (e : string) (st : State) : State :=
  {| video := video st; canvas := canvas st; isCameraOn := isCameraOn st;
     statusMessage := statusMessage st; expression := e;
     modelsLoaded := modelsLoaded st; cocoModel := cocoModel st;
     lastSpokenExpression := lastSpokenExpression st;
     stoppedTracks := stoppedTracks st; speech := speech st;
     console := console st; loops := loops st |}.

Definition setModels (ml : bool) (m : option ObjectDetectionModel)
    (st : State) : State :=
  {| video := video st; canvas := canvas st; isCameraOn := isCameraOn st;
     statusMessage := statusMessage st; expression := expression st;
     modelsLoaded := ml; cocoModel := m;
     lastSpokenExpression := lastSpokenExpression st;
     stoppedTracks := stoppedTracks st; speech := speech st;
     console := console st; loops := loops st |}.

Definition set_lastSpokenExpression (l : string) (st : State) : State :=
  {| video := video st; canvas := canvas st; isCameraOn := isCameraOn st;
     statusMessage := statusMessage st; expression := expression st;
     modelsLoaded := modelsLoaded st; cocoModel := cocoModel st;
     lastSpokenExpression := l;
     stoppedTracks := stoppedTracks st; speech := speech st;
     console := console st; loops := loops st |}.

Definition set_stoppedTracks (t : list nat) (st : State) : State :=
  {| video := video st; canvas := canvas st; isCameraOn := isCameraOn st;
     statusMessage := statusMessage st; expression := expression st;
     modelsLoaded := modelsLoaded st; cocoModel := cocoModel st;
     lastSpokenExpression := lastSpokenExpression st;
     stoppedTracks := t; speech := speech st;
     console := console st; loops := loops st |}.

Definition set_speech (s : list SpeechEvent) (st : State) : State :=
  {| video := video st; canvas := canvas st; isCameraOn := isCameraOn st;
     statusMessage := statusMessage st; expression := expression st;
     modelsLoaded := modelsLoaded st; cocoModel := cocoModel st;
     lastSpokenExpression := lastSpokenExpression st;
     stoppedTracks := stoppedTracks st; speech := s;
     console := console st; loops := loops st |}.

Definition set_console (c : list string) (st : State) : State :=
  {| video := video st; canvas := canvas st; isCameraOn := isCameraOn st;
     statusMessage := statusMessage st; expression := expression st;
     modelsLoaded := modelsLoaded st; cocoModel := cocoModel st;
     lastSpokenExpression := lastSpokenExpression st;
     stoppedTracks := stoppedTracks st; speech := speech st;
     console := c; loops := loops st |}.

Definition set_loops (l : list Loop) (st : State) : State :=
  {| video := video st; canvas := canvas st; isCameraOn := isCameraOn st;
     statusMessage := statusMessage st; expression := expression st;
     modelsLoaded := modelsLoaded st; cocoModel := cocoModel st;
     lastSpokenExpression := lastSpokenExpression st;
     stoppedTracks := stoppedTracks st; speech := speech st;
     console := console st; loops := l |}.

Definition set_srcObject (s : option MediaStream) (v : Video) : Video :=
  {| srcObject := s; paused := paused v; ended := ended v;
     videoWidth := videoWidth v; videoHeight := videoHeight v |}.

Definition set_paused (b : bool) (v : Video) : Video :=
  {| srcObject := srcObject v; paused := b; ended := ended v;
     videoWidth := videoWidth v; videoHeight := videoHeight v |}.

Definition set_pending (p : Pending) (l : Loop) : Loop :=
  {| closure := closure l; displaySize := displaySize l; pending := p |}.

(** *** Browser calls *)

Definition console_log (line : string) (st : State) : State :=
  set_console (console st ++ [line]) st.

(** [ctx.clearRect(0, 0, canvas.width, canvas.height)]: nothing is left. *)
Definition clearRect (st : State) : State :=
  set_canvas {| cwidth := cwidth (canvas st); cheight := cheight (canvas st);
                content := [] |} st.

Definition draw (op : DrawOp) (st : State) : State :=
  set_canvas {| cwidth := cwidth (canvas st); cheight := cheight (canvas st);
                content := content (canvas st) ++ [op] |} st.

(** [faceapi.matchDimensions(canvas, displaySize)] assigns the width and the
    height of the canvas, which blanks it. *)
Definition matchDimensions (size : Z * Z) (st : State) : State :=
  set_canvas {| cwidth := fst size; cheight := snd size; content := [] |} st.

(* ================================================================== *)
(** ** Expression aggregation and speech debouncing *)
(* ================================================================== *)

(** [Object.keys(expressionsObj)]. *)
Definition keys (obj : list (string * Q)) : list string := map fst obj.

(** [expressionsObj[k]]: the value of property [k], if the object has it. *)
Fixpoint get (obj : list (string * Q)) (k : string) : option Q :=
  match obj with
  | [] => None
  | (k', v) :: rest => if String.eqb k' k then Some v else get rest k
  end.

(** [expressionsObj[k] ?? 0]. *)
Definition score_of (obj : list (string * Q)) (k : string) : Q :=
  match get obj k with
  | Some v => v
  | None => 0
  end.

(** [Array.prototype.reduce] without an initial value: the first element
    seeds the accumulator; on an empty array the call throws. *)
Definition reduce {A : Type} (f : A -> A -> A) (l : list A) : option A :=
  match l with
  | [] => None
  | a :: rest => Some (fold_left f rest a)
  end.

(** The callback of the reduction: keep [a] only when it scores strictly
    higher than [b]. *)
Definition pick (obj : list (string * Q)) (a b : string) : string :=
  if gtb (score_of obj a) (score_of obj b) then a else b.

Definition maxExpression (obj : list (string * Q)) : option string :=
  reduce (pick obj) (keys obj).

(** [(Number(expressionsObj[maxExpression]) || 0) * 100).toFixed(2)]. *)
Definition confidence (obj : list (string * Q)) (label : string) : string :=
  toFixed2 (score_of obj label * 100).

Definition speakExpression (text : string) (st : State) : State :=
  if String.eqb text (lastSpokenExpression st) then st
  else
    set_lastSpokenExpression text
      (set_speech (speech st ++ [Cancel; Speak ("You look " ++ text)]) st).

(** Lines 118-139 of [detect]: what one frame's faces do to the expression
    text, the speech synthesiser and the overlay.  [None] is the exception
    [reduce] throws on an expressions object without properties. *)
Definition aggregate (resized : list FaceDetection) (st : State)
    : option State :=
  match resized with
  | face :: _ =>
      let expressionsObj := expressions face in
      match maxExpression expressionsObj with
      | None => None
      | Some label =>
          let text :=
            label ++ " (" ++ confidence expressionsObj label ++ "%)" in
          let st1 := setExpression text st in
          let st2 := speakExpression label st1 in
          Some (draw (FillText "blue" "16px Arial" text
                        (x (box face)) (y (box face) - 10)) st2)
      end
  | [] =>
      Some (set_lastSpokenExpression "" (setExpression "No face detected" st))
  end.

(* ================================================================== *)
(** ** The detection loop *)
(* ================================================================== *)

(** The guard at the top of [detect]:
    [!modelsLoaded || !cocoModel || video.paused || video.ended]. *)
Definition guard_fails (l : Loop) (st : State) : bool :=
  negb (r_modelsLoaded (closure l))
  || match r_cocoModel (closure l) with None => true | Some _ => false end
  || paused (video st)
  || ended (video st).

(** The part of the guard that is fixed when the closure is built. *)
Definition closure_ready (cl : Render) : bool :=
  r_modelsLoaded cl
  && match r_cocoModel cl with Some _ => true | None => false end.

(** A call of [detect] up to its first [await].  [None]: the call returned
    at the guard, and nothing is left that would call [detect] again. *)
Definition detect_enter (l : Loop) (st : State) : option Loop :=
  if guard_fails l st then None else Some (set_pending AwaitFaces l).

(** The overlay work that follows the face provider's answer. *)
Definition drawFaces (resized : list FaceDetection) (st : State) : State :=
  draw (DrawFaceExpressions resized)
    (draw (DrawFaceLandmarks resized)
       (draw (DrawDetections resized) (clearRect st))).

(** [detect] from the face provider's answer to the second [await].  A
    rejected promise, or an exception on the way, ends the call: the
    remainder of the body, [requestAnimationFrame(detect)] included, is
    not run. *)
Definition detect_faces (l : Loop) (r : Settled (list FaceDetection))
    (st : State) : State * option Loop :=
  match r with
  | Rejected => (st, None)
  | Resolved resized =>
      let st1 := drawFaces resized st in
      match aggregate resized st1 with
      | None => (st1, None)
      | Some st2 => (st2, Some (set_pending AwaitObjects l))
      end
  end.

Definition drawPrediction (st : State) (pred : ObjectDetection) : State :=
  draw (FillText "lime" "14px Arial"
          (class pred ++ " ("
             ++ string_of_Z (Math_round (score pred * 100)) ++ "%)")
          (x (bbox pred)) (y (bbox pred) - 5))
    (draw (StrokeRect "lime" 2 (bbox pred)) st).

(** [detect] from the object provider's answer to its end, where the next
    call is handed to [requestAnimationFrame]. *)
Definition detect_objects (l : Loop) (r : Settled (list ObjectDetection))
    (st : State) : State * option Loop :=
  match r with
  | Rejected => (st, None)
  | Resolved predictions =>
      (fold_left drawPrediction predictions st,
       Some (set_pending AwaitFrame l))
  end.

(** One whole call of [detect], the two providers' answers given. *)
Definition detect (l : Loop) (faces : Settled (list FaceDetection))
    (objects : Settled (list ObjectDetection)) (st : State)
    : State * option Loop :=
  match detect_enter l st with
  | None => (st, None)
  | Some l1 =>
      match detect_faces l1 faces st with
      | (st1, None) => (st1, None)
      | (st1, Some l2) => detect_objects l2 objects st1
      end
  end.

(** [detectLoop]: size the overlay, build the closure, call [detect]. *)
Definition detectLoop (cl : Render) (st : State) : State :=
  let size := (videoWidth (video st), videoHeight (video st)) in
  let st1 := matchDimensions size st in
  let l := {| closure := cl; displaySize := size; pending := AwaitFrame |} in
  match detect_enter l st1 with
  | None => st1
  | Some l1 => set_loops (loops st1 ++ [l1]) st1
  end.

(** *** The event loop's side of it *)

(** What the browser may deliver to the [n]-th running loop. *)
Inductive Delivery :=
| AnimationFrame
| FacesSettled (r : Settled (list FaceDetection))
| ObjectsSettled (r : Settled (list ObjectDetection)).

Definition resume (l : Loop) (d : Delivery) (st : State)
    : option (State * option Loop) :=
  match pending l, d with
  | AwaitFrame, AnimationFrame => Some (st, detect_enter l st)
  | AwaitFaces, FacesSettled r => Some (detect_faces l r st)
  | AwaitObjects, ObjectsSettled r => Some (detect_objects l r st)
  | _, _ => None
  end.

Fixpoint replace_nth (n : nat) (l' : option Loop) (ls : list Loop)
    : list Loop :=
  match ls, n with
  | [], _ => []
  | _ :: rest, O => match l' with Some l1 => l1 :: rest | None => rest end
  | l0 :: rest, S n' => l0 :: replace_nth n' l' rest
  end.

(** Deliver [d] to the [n]-th running loop.  A delivery that no loop waits
    for changes nothing. *)
Definition deliver (n : nat) (d : Delivery) (st : State) : State :=
  match nth_error (loops st) n with
  | None => st
  | Some l =>
      match resume l d st with
      | None => st
      | Some (st1, l') => set_loops (replace_nth n l' (loops st1)) st1
      end
  end.

(* ================================================================== *)
(** ** Camera lifecycle *)
(* ================================================================== *)

(** What the media devices answer to one call of [startCamera]. *)
Record Device := {
  getUserMedia : Settled MediaStream;
  play : Settled unit
}.

Definition camera_error : string := "Camera error:".

(** [startCamera], created in the render [cl].  The two awaits are taken in
    one step; a video whose [play()] has resolved is not paused.  A rejected
    promise lands in the [catch], which logs. *)
Definition startCamera (cl : Render) (dev : Device) (st : State) : State :=
  match getUserMedia dev with
  | Rejected => console_log camera_error st
  | Resolved stream =>
      let st1 := set_video (set_srcObject (Some stream) (video st)) st in
      match play dev with
      | Rejected => console_log camera_error st1
      | Resolved _ =>
          let st2 := set_video (set_paused false (video st1)) st1 in
          let st3 := setIsCameraOn true st2 in
          let st4 := setStatusMessage "Camera started" st3 in
          detectLoop cl st4
      end
  end.

Definition stopCamera (st : State) : State :=
  let st1 :=
    match srcObject (video st) with
    | Some stream =>
        set_video (set_srcObject None (video st))
          (set_stoppedTracks (stoppedTracks st ++ getTracks stream) st)
    | None => st
    end in
  let st2 := setIsCameraOn false st1 in
  let st3 := setStatusMessage "Camera stopped" st2 in
  let st4 := setExpression "" st3 in
  let st5 := set_lastSpokenExpression "" st4 in
  clearRect st5.

(** The model-loading effect: both state cells are set once everything has
    loaded; a failure is logged and leaves them as they were. *)
Definition loadModels (loaded : bool) (st : State) : State :=
  if loaded then setModels true (Some CocoSsd) st
  else console_log "Model load error:" st.

(** The values the handlers of the current render close over. *)
Definition render (st : State) : Render :=
  {| r_modelsLoaded := modelsLoaded st; r_cocoModel := cocoModel st |}.

(** The two buttons call the handlers of the current render. *)
Definition clickStart (dev : Device) (st : State) : State :=
  startCamera (render st) dev st.
Definition clickStop (st : State) : State := stopCamera st.

(* ================================================================== *)
(** ** Voice commands *)
(* ================================================================== *)

(** The recognition effect has no dependencies: it runs once, after the
    first render, and its handler keeps the [startCamera] and [stopCamera]
    of that render. *)
Definition firstRender : Render :=
  {| r_modelsLoaded := false; r_cocoModel := None |}.

Definition normalise (transcript : string) : string :=
  toLowerCase (trim transcript).

(** [recognition.onresult], given the transcript of the last result. *)
Definition onresult (dev : Device) (transcript : string) (st : State)
    : State :=
  let command := normalise transcript in
  let st1 := console_log ("Voice Command: " ++ command) st in
  if includes command "start camera" then startCamera firstRender dev st1
  else if includes command "stop camera" then stopCamera st1
  else st1.

(** What the specification calls the outcome of classification, and the
    handler each outcome stands for. *)
Inductive Action := StartCamera | StopCamera | Unknown.

Definition classify (transcript : string) : Action :=
  let command := normalise transcript in
  if includes command "start camera" then StartCamera
  else if includes command "stop camera" then StopCamera
  else Unknown.

Definition perform (a : Action) (dev : Device) (st : State) : State :=
  match a with
  | StartCamera => startCamera firstRender dev st
  | StopCamera => stopCamera st
  | Unknown => st
  end.

(* ================================================================== *)
(** ** Speech debouncing, as the specification words it *)
(* ================================================================== *)

(** Speaking: cancel what is being said, then say the new sentence. *)
Definition utterance (label : string) : list SpeechEvent :=
  [Cancel; Speak ("You look " ++ label)].

(** Whether [label] is a change from the label spoken last; anything is a
    change from none. *)
Definition differs_from (last : option string) (label : string) : bool :=
  match last with
  | None => true
  | Some spoken => negb (String.eqb label spoken)
  end.

(** A label of maximum score, read off the mapping itself: the mapping
    gives it a score that no score of the mapping exceeds. *)
Definition is_argmax (obj : list (string * Q)) (label : string) : Prop :=
  exists v, In (label, v) obj /\ forall k w, In (k, w) obj -> w <= v.

(** What a frame puts forward: nothing when it has no face, else a label
    of maximum score of its first face. *)
Definition frame_label (resized : list FaceDetection)
    (chosen : option string) : Prop :=
  match resized with
  | [] => chosen = None
  | face :: _ =>
      exists label,
        chosen = Some label /\ is_argmax (expressions face) label
  end.

(** Frame by frame, what is to be said, given what each frame puts
    forward: the sentence for the label when it differs from the label
    spoken last, nothing otherwise; a frame without faces says nothing and
    forgets the label spoken last. *)
Fixpoint expected_speech (last : option string)
    (chosen : list (option string)) : list (list SpeechEvent) :=
  match chosen with
  | [] => []
  | None :: rest => [] :: expected_speech None rest
  | Some label :: rest =>
      (if differs_from last label then utterance label else [])
        :: expected_speech (Some label) rest
  end.

(** The properties of an object have distinct names. *)
Definition distinct_labels (resized : list FaceDetection) : Prop :=
  match resized with
  | [] => True
  | face :: _ => NoDup (keys (expressions face))
  end.

(** The debounce slot holding [last]: the empty string stands for none. *)
Definition slot (last : option string) : string :=
  match last with
  | None => ""
  | Some label => label
  end.

(** A frame the face provider can answer with: the expressions object of
    its first face has properties, and none of them is named by the empty
    string. *)
Definition well_formed_frame (resized : list FaceDetection) : Prop :=
  match resized with
  | [] => True
  | face :: _ =>
      expressions face <> [] /\ ~ In "" (keys (expressions face))
  end.

(** What the synthesiser was asked between two states. *)
Definition spoken (st st' : State) : list SpeechEvent :=
  skipn (length (speech st)) (speech st').

(** The aggregator run over consecutive frames, with what it had the
    synthesiser do at each. *)
Fixpoint aggregate_all (frames : list (list FaceDetection)) (st : State)
    : option (list (list SpeechEvent) * State) :=
  match frames with
  | [] => Some ([], st)
  | resized :: rest =>
      match aggregate resized st with
      | None => None
      | Some st1 =>
          match aggregate_all rest st1 with
          | None => None
          | Some (said, st2) => Some (spoken st st1 :: said, st2)
          end
      end
  end.

(* ================================================================== *)
(** ** Sample inputs *)
(* ================================================================== *)

Definition readyRender : Render :=
  {| r_modelsLoaded := true; r_cocoModel := Some CocoSsd |}.

(** A device that answers with a one-track stream and lets it play. *)
Definition webcam (track : nat) : Device :=
  {| getUserMedia := Resolved {| getTracks := [track] |};
     play := Resolved tt |}.

(** No device, or permission denied. *)
Definition noCamera : Device :=
  {| getUserMedia := Rejected; play := Resolved tt |}.

(** A device that answers with a one-track stream that cannot be played. *)
Definition blockedPlayback (track : nat) : Device :=
  {| getUserMedia := Resolved {| getTracks := [track] |};
     play := Rejected |}.

(** The page once the models have loaded. *)
Definition loaded : State := loadModels true mounted.

(** The camera started from the button, models loaded. *)
Definition cameraOn : State := clickStart (webcam 1) loaded.

Definition faceWith (obj : list (string * Q)) : FaceDetection :=
  {| box := {| x := 100; y := 80; width := 200; height := 200 |};
     landmarks := [];
     expressions := obj |}.

Definition happyScores : list (string * Q) :=
  [("happy", 91 # 100); ("neutral", 5 # 100); ("sad", 4 # 100)].
Definition tiedScores : list (string * Q) :=
  [("happy", 1 # 2); ("sad", 1 # 2)].

Definition happyFrame : list FaceDetection := [faceWith happyScores].
Definition stillHappyFrame : list FaceDetection :=
  [faceWith [("happy", 60 # 100); ("surprised", 40 # 100)]].
Definition sadFrame : list FaceDetection := [faceWith [("sad", 70 # 100)]].

(** The highest score is not on the first key. *)
Definition neutralFirstFrame : list FaceDetection :=
  [faceWith [("neutral", 5 # 100); ("happy", 91 # 100); ("sad", 4 # 100)]].

Definition cup : ObjectDetection :=
  {| bbox := {| x := 10; y := 20; width := 30; height := 40 |};
     class := "cup"; score := 876 # 1000 |}.

Definition readyLoop : Loop :=
  {| closure := readyRender; displaySize := (0%Z, 0%Z);
     pending := AwaitFrame |}.

(** The camera started a second time, from the button, without a stop. *)
Definition cameraOnTwice : State := clickStart (webcam 2) cameraOn.

(** The browser pauses the video (the user does, or the stream goes). *)
Definition browserPauses (st : State) : State :=
  set_video (set_paused true (video st)) st.

(** The first loop gets through a frame in which nothing is detected. *)
Definition quietFrame (st : State) : State :=
  deliver 0 (ObjectsSettled (Resolved []))
    (deliver 0 (FacesSettled (Resolved [])) st).

(** The camera on, its loop waiting for the next animation frame, and the
    video paused meanwhile. *)
Definition cameraPaused : State := browserPauses (quietFrame cameraOn).

(* ================================================================== *)
(** ** The rendered page *)
(* ================================================================== *)

(** What the JSX shows of the state: the status paragraph, the camera
    indicator with its colour, and the expression paragraph, which is
    rendered only when the expression text is not empty. *)
Record View := {
  statusLine : string;
  cameraLabel : string;
  cameraColor : string;
  expressionLine : option string
}.

Definition view (st : State) : View :=
  {| statusLine :=
       if modelsLoaded st then statusMessage st else "Loading models...";
     cameraLabel := if isCameraOn st then "Camera ON" else "Camera OFF";
     cameraColor := if isCameraOn st then "green" else "red";
     expressionLine :=
       if String.eqb (expression st) "" then None
       else Some (expression st) |}.

(* ================================================================== *)
(** ** The component as an event-driven machine *)
(* ================================================================== *)

(** The browser changes the flags and the size of the video element. *)
Definition browserSets (p e : bool) (w h : Z) (st : State) : State :=
  set_video {| srcObject := srcObject (video st); paused := p; ended := e;
               videoWidth := w; videoHeight := h |} st.

(** Everything that can happen to the mounted component. *)
Inductive Event :=
| ModelsSettled (ok : bool)
| ClickStart (dev : Device)
| ClickStop
| VoiceResult (dev : Device) (transcript : string)
| Deliver (n : nat) (d : Delivery)
| VideoChanged (p e : bool) (w h : Z).

Definition step (ev : Event) (st : State) : State :=
  match ev with
  | ModelsSettled ok => loadModels ok st
  | ClickStart dev => clickStart dev st
  | ClickStop => clickStop st
  | VoiceResult dev transcript => onresult dev transcript st
  | Deliver n d => deliver n d st
  | VideoChanged p e w h => browserSets p e w h st
  end.

Definition run (evs : list Event) (st : State) : State :=
  fold_left (fun s ev => step ev s) evs st.

Definition is_button_start (ev : Event) : bool :=
  match ev with
  | ClickStart _ => true
  | _ => false
  end.

Definition is_models_loaded (ev : Event) : bool :=
  match ev with
  | ModelsSettled true => true
  | _ => false
  end.

(** The event comes with a device whose stream has [track] among its
    tracks. *)
Definition hands_out (track : nat) (ev : Event) : Prop :=
  match ev with
  | ClickStart dev | VoiceResult dev _ =>
      match getUserMedia dev with
      | Resolved stream => In track (getTracks stream)
      | Rejected => False
      end
  | _ => False
  end.

(** The tracks of the stream the video element shows. *)
Definition attached_tracks (st : State) : list nat :=
  match srcObject (video st) with
  | Some stream => getTracks stream
  | None => []
  end.

(** A synthesiser log in which every sentence comes right after a cancel
    and is of the form "You look ...". *)
Definition paired (log : list SpeechEvent) : Prop :=
  exists labels, log = flat_map utterance labels.

(** What the loop leaves alone: everything but the overlay's paint, the
    expression text, the debounce slot, the synthesiser and the list of
    running loops. *)
Definition untouched (st st' : State) : Prop :=
  video st' = video st
  /\ isCameraOn st' = isCameraOn st
  /\ statusMessage st' = statusMessage st
  /\ modelsLoaded st' = modelsLoaded st
  /\ cocoModel st' = cocoModel st
  /\ stoppedTracks st' = stoppedTracks st
  /\ console st' = console st
  /\ cwidth (canvas st') = cwidth (canvas st)
  /\ cheight (canvas st') = cheight (canvas st).

(** The paint one frame stands for. *)
Definition labelPaint (resized : list FaceDetection) : list DrawOp :=
  match resized with
  | face :: _ =>
      match maxExpression (expressions face) with
      | Some label =>
          [FillText "blue" "16px Arial"
             (label ++ " (" ++ confidence (expressions face) label ++ "%)")
             (x (box face)) (y (box face) - 10)]
      | None => []
      end
  | [] => []
  end.

Definition predictionPaint (pred : ObjectDetection) : list DrawOp :=
  [StrokeRect "lime" 2 (bbox pred);
   FillText "lime" "14px Arial"
     (class pred ++ " ("
        ++ string_of_Z (Math_round (score pred * 100)) ++ "%)")
     (x (bbox pred)) (y (bbox pred) - 5)].

Definition framePaint (resized : list FaceDetection)
    (predictions : list ObjectDetection) : list DrawOp :=
  [DrawDetections resized; DrawFaceLandmarks resized;
   DrawFaceExpressions resized]
  ++ labelPaint resized ++ flat_map predictionPaint predictions.

(** The first face of the frame, if any, has an expression to show. *)
Definition first_face_has_label (resized : list FaceDetection) : Prop :=
  match resized with
  | face :: _ => expressions face <> []
  | [] => True
  end.

(* ================================================================== *)
(** ** A start, await by await *)
(* ================================================================== *)

(** [startCamera] from the answer of [getUserMedia] to [await play()]:
    the stream is attached. *)
Definition startCamera_attach (stream : MediaStream) (st : State) : State :=
  set_video (set_srcObject (Some stream) (video st)) st.

(** [startCamera] after [play()] has resolved. *)
Definition startCamera_played (cl : Render) (st : State) : State :=
  detectLoop cl
    (setStatusMessage "Camera started"
       (setIsCameraOn true
          (set_video (set_paused false (video st)) st))).

(** The machine with the awaits of a start as events of their own, so
    that anything may happen between them.  Which start a continuation
    belongs to is not tracked: every order the code can go through is an
    order of this machine. *)
Inductive FineEvent :=
| Whole (ev : Event)
| StreamAttached (stream : MediaStream)
| AcquireRejected
| PlayResolved (cl : Render)
| PlayRejected.

Definition fine_step (ev : FineEvent) (st : State) : State :=
  match ev with
  | Whole ev => step ev st
  | StreamAttached stream => startCamera_attach stream st
  | PlayResolved cl => startCamera_played cl st
  | AcquireRejected | PlayRejected => console_log camera_error st
  end.

Definition fine_run (evs : list FineEvent) (st : State) : State :=
  fold_left (fun s ev => fine_step ev s) evs st.

(* ================================================================== *)
(** ** White space, as a reader of transcripts takes it *)
(* ================================================================== *)

(** The words of a transcript: what is left between runs of white
    space.  Transcripts with the same words differ in white space only. *)
Fixpoint words_from (word : string) (s : string) : list string :=
  match s with
  | EmptyString =>
      match word with
      | EmptyString => []
      | _ => [word]
      end
  | String ch s' =>
      if is_space ch then
        match word with
        | EmptyString => words_from "" s'
        | _ => word :: words_from "" s'
        end
      else words_from (word ++ String ch "") s'
  end.

Definition words (s : string) : list string := words_from "" s.

(* ================================================================== *)
(** ** Conditions the component keeps *)
(* ================================================================== *)

(** The camera flag and the status text. *)
Definition flag_agrees (st : State) : Prop :=
  (isCameraOn st = true <-> statusMessage st = "Camera started")
  /\ (statusMessage st = "Say 'start camera' or use the buttons"
      \/ statusMessage st = "Camera started"
      \/ statusMessage st = "Camera stopped").

(** Readiness of the models and of the closures of the running loops. *)
Definition ready_agrees (st : State) : Prop :=
  (modelsLoaded st = true <-> cocoModel st <> None)
  /\ Forall (fun l => closure_ready (closure l) = true) (loops st).

(** How an event moves the synthesiser's log and the debounce slot. *)
Definition speech_moves (st st' : State) : Prop :=
  (speech st' = speech st
   /\ (lastSpokenExpression st' = lastSpokenExpression st
       \/ lastSpokenExpression st' = ""))
  \/ speech st' = (speech st ++ utterance (lastSpokenExpression st'))%list.

(** The log is made of whole utterances, and the slot names the last of
    them unless it has been reset. *)
Definition speech_agrees (st : State) : Prop :=
  paired (speech st)
  /\ (lastSpokenExpression st = ""
      \/ exists before,
           speech st = (before ++ utterance (lastSpokenExpression st))%list).

(* ================================================================== *)
(** ** Properties of the string operations *)
(* ================================================================== *)

Section StringFacts.

Lemma prefix_iff_append (n s : string) :
  prefix n s = true <-> exists post, s = n ++ post.
Proof.
  revert s; induction n as [|a n IH]; intros s.
  - split; [intros _; now exists s | intros _; now destruct s].
  - destruct s as [|b s]; simpl.
    + split; [discriminate | intros [post H]; discriminate].
    + destruct (ascii_dec a b) as [->|Hab].
      * rewrite IH. split; intros [post H]; exists post.
        -- now rewrite H.
        -- now injection H.
      * split; [discriminate|].
        intros [post H]. injection H as Hb _. now elim Hab.
Qed.

Lemma includes_iff_occurs (s n : string) :
  includes s n = true <-> occurs_in n s.
Proof.
  unfold occurs_in. induction s as [|c s IH].
  - cbn [includes]. rewrite orb_false_r, prefix_iff_append. split.
    + intros [post H]. now exists "", post.
    + intros [[|p pre] [post H]]; [now exists post | discriminate].
  - cbn [includes]. rewrite orb_true_iff, prefix_iff_append, IH. split.
    + intros [[post H] | [pre [post H]]].
      * now exists "", post.
      * exists (String c pre), post. simpl. now rewrite H.
    + intros [[|p pre] [post H]].
      * left. now exists post.
      * right. exists pre, post. simpl in H. now injection H.
Qed.

Lemma includes_false_iff (s n : string) :
  includes s n = false <-> ~ occurs_in n s.
Proof.
  rewrite <- includes_iff_occurs. now destruct (includes s n).
Qed.

Lemma is_space_lower_char (c : ascii) :
  is_space (lower_char c) = is_space c.
Proof.
  destruct c as [[] [] [] [] [] [] [] []]; reflexivity.
Qed.

Lemma toLowerCase_append (s t : string) :
  toLowerCase (s ++ t) = toLowerCase s ++ toLowerCase t.
Proof.
  induction s as [|c s IH]; simpl; [reflexivity | now rewrite IH].
Qed.

Lemma toLowerCase_trimStart (s : string) :
  toLowerCase (trimStart s) = trimStart (toLowerCase s).
Proof.
  induction s as [|c s IH]; simpl; [reflexivity|].
  rewrite is_space_lower_char. now destruct (is_space c).
Qed.

Lemma toLowerCase_trimEnd (s : string) :
  toLowerCase (trimEnd s) = trimEnd (toLowerCase s).
Proof.
  induction s as [|c s IH]; simpl; [reflexivity|].
  rewrite <- IH, is_space_lower_char.
  destruct (trimEnd s); simpl; [now destruct (is_space c) | reflexivity].
Qed.

Lemma toLowerCase_trim (s : string) :
  toLowerCase (trim s) = trim (toLowerCase s).
Proof.
  unfold trim. now rewrite toLowerCase_trimStart, toLowerCase_trimEnd.
Qed.

Lemma trimStart_leading (ws s : string) :
  all_space ws = true -> trimStart (ws ++ s) = trimStart s.
Proof.
  induction ws as [|c ws IH]; simpl; [reflexivity|].
  intros H. apply andb_true_iff in H as [Hc Hws]. rewrite Hc. now apply IH.
Qed.

Lemma trimEnd_all_space (ws : string) :
  all_space ws = true -> trimEnd ws = "".
Proof.
  induction ws as [|c ws IH]; simpl; [reflexivity|].
  intros H. apply andb_true_iff in H as [Hc Hws].
  now rewrite (IH Hws), Hc.
Qed.

Lemma trimEnd_trailing (s ws : string) :
  all_space ws = true -> trimEnd (s ++ ws) = trimEnd s.
Proof.
  intros Hws. induction s as [|c s IH]; simpl.
  - now apply trimEnd_all_space.
  - now rewrite IH.
Qed.

(** White space in front of a string survives [trimEnd] exactly when
    something else does. *)
Lemma trimStart_trimEnd_leading (ws s : string) :
  all_space ws = true -> trimStart (trimEnd (ws ++ s)) = trimStart (trimEnd s).
Proof.
  induction ws as [|c ws IH]; simpl; [reflexivity|].
  intros H. apply andb_true_iff in H as [Hc Hws].
  specialize (IH Hws).
  destruct (trimEnd (ws ++ s)) as [|d u] eqn:E.
  - rewrite Hc. simpl. simpl in IH. exact IH.
  - cbn [trimStart]. rewrite Hc. exact IH.
Qed.

Lemma trim_surrounding (ws1 s ws2 : string) :
  all_space ws1 = true -> all_space ws2 = true ->
  trim (ws1 ++ s ++ ws2) = trim s.
Proof.
  intros H1 H2. unfold trim.
  rewrite (trimStart_trimEnd_leading ws1 (s ++ ws2) H1).
  now rewrite trimEnd_trailing.
Qed.

Lemma normalise_case (s t : string) :
  toLowerCase s = toLowerCase t -> normalise s = normalise t.
Proof.
  unfold normalise. intros H. now rewrite !toLowerCase_trim, H.
Qed.

Lemma normalise_surrounding (ws1 s ws2 : string) :
  all_space ws1 = true -> all_space ws2 = true ->
  normalise (ws1 ++ s ++ ws2) = normalise s.
Proof.
  intros H1 H2. unfold normalise. now rewrite trim_surrounding.
Qed.

End StringFacts.

(* ================================================================== *)
(** ** Voice commands *)
(* ================================================================== *)

(** The handlers are unfolded one layer at a time: projections of updated
    states then reduce on their own. *)
Ltac open_start :=
  unfold clickStart, startCamera, detectLoop, detect_enter;
  repeat match goal with
         | |- context [match getUserMedia ?d with _ => _ end] =>
             destruct (getUserMedia d)
         | |- context [match play ?d with _ => _ end] => destruct (play d)
         | |- context [if guard_fails ?l ?s then _ else _] =>
             destruct (guard_fails l s) eqn:?
         end.

Section Voice.

Variable dev : Device.

Lemma classify_start (t : string) :
  occurs_in "start camera" (normalise t) -> classify t = StartCamera.
Proof.
  intros H. apply includes_iff_occurs in H. unfold classify. now rewrite H.
Qed.

Lemma classify_stop (t : string) :
  ~ occurs_in "start camera" (normalise t) ->
  occurs_in "stop camera" (normalise t) ->
  classify t = StopCamera.
Proof.
  intros H1 H2. apply includes_false_iff in H1.
  apply includes_iff_occurs in H2. unfold classify. now rewrite H1, H2.
Qed.

Lemma classify_unknown (t : string) :
  ~ occurs_in "start camera" (normalise t) ->
  ~ occurs_in "stop camera" (normalise t) ->
  classify t = Unknown.
Proof.
  intros H1 H2. apply includes_false_iff in H1, H2.
  unfold classify. now rewrite H1, H2.
Qed.

Lemma onresult_perform (t : string) (st : State) :
  onresult dev t st =
  perform (classify t) dev
    (console_log ("Voice Command: " ++ normalise t) st).
Proof.
  unfold onresult, classify.
  destruct (includes (normalise t) "start camera"); [reflexivity|].
  now destruct (includes (normalise t) "stop camera").
Qed.

Lemma onresult_same_command (t t' : string) (st : State) :
  normalise t' = normalise t -> onresult dev t' st = onresult dev t st.
Proof.
  intros H. unfold onresult. now rewrite H.
Qed.

Lemma startCamera_stoppedTracks (cl : Render) (st : State) :
  stoppedTracks (startCamera cl dev st) = stoppedTracks st.
Proof.
  open_start; reflexivity.
Qed.

End Voice.

(** C7 (refuted as stated).  White space inside the transcript is not
    normalised: with two blanks between the words of the start phrase the
    transcript has the words of "start camera" and is not taken for the
    command. *)
Lemma interior_white_space_is_significant :
  words "start  camera" = words "start camera"
  /\ classify "start camera" = StartCamera
  /\ classify "start  camera" = Unknown
  /\ onresult (webcam 1) "start  camera" mounted
     = console_log "Voice Command: start  camera" mounted
  /\ ~ (forall t t', words t = words t' -> classify t = classify t').
Proof.
  repeat split; try reflexivity.
  intros H. specialize (H "start  camera" "start camera" eq_refl).
  discriminate H.
Qed.

(** C7 (amended).  A transcript is classified on its normal form, the transcript
    trimmed and put in lower case: when that contains "start camera" the
    handler runs [startCamera]; when it does not but contains "stop camera"
    the handler runs [stopCamera]; otherwise nothing but the console line
    is left behind.  Transcripts that differ in letter case only, or in
    white space around them only, are handled alike.  "Could you please
    Start Camera" starts the camera, "please STOP camera now" stops it and
    "hello world" does nothing. *)
Theorem voice_command_classification
    (dev : Device) (t : string) (st : State) :
  let command := normalise t in
  let heard := console_log ("Voice Command: " ++ command) st in
  onresult dev t st = perform (classify t) dev heard
  /\ (occurs_in "start camera" command ->
      classify t = StartCamera
      /\ onresult dev t st = startCamera firstRender dev heard)
  /\ (~ occurs_in "start camera" command ->
      occurs_in "stop camera" command ->
      classify t = StopCamera /\ onresult dev t st = stopCamera heard)
  /\ (~ occurs_in "start camera" command ->
      ~ occurs_in "stop camera" command ->
      classify t = Unknown /\ onresult dev t st = heard)
  /\ (forall t', toLowerCase t' = toLowerCase t ->
      onresult dev t' st = onresult dev t st)
  /\ (forall ws1 ws2, all_space ws1 = true -> all_space ws2 = true ->
      onresult dev (ws1 ++ t ++ ws2) st = onresult dev t st)
  /\ (classify "Could you please Start Camera" = StartCamera
      /\ isCameraOn
           (onresult (webcam 1) "Could you please Start Camera" mounted)
         = true)
  /\ (classify "please STOP camera now" = StopCamera
      /\ isCameraOn (onresult dev "please STOP camera now" cameraOn) = false
      /\ srcObject (video (onresult dev "please STOP camera now" cameraOn))
         = None)
  /\ (classify "hello world" = Unknown
      /\ onresult dev "hello world" st
         = console_log "Voice Command: hello world" st).
Proof.
  intros command heard. subst command heard.
  pose proof (onresult_perform dev t st) as Hp.
  split; [exact Hp|].
  split; [intros H; rewrite Hp, (classify_start t H); now split|].
  split; [intros H1 H2; rewrite Hp, (classify_stop t H1 H2); now split|].
  split; [intros H1 H2; rewrite Hp, (classify_unknown t H1 H2); now split|].
  split.
  { intros t' H. apply onresult_same_command. now apply normalise_case. }
  split.
  { intros ws1 ws2 H1 H2. apply onresult_same_command.
    now apply normalise_surrounding. }
  split; [split; vm_compute; reflexivity|].
  split; [repeat split; vm_compute; reflexivity|].
  split; [vm_compute; reflexivity|].
  rewrite onresult_perform. reflexivity.
Qed.

Lemma voice_command_classification_witness :
  classify "  Please START camera now " = StartCamera
  /\ onresult noCamera "  Please START camera now " mounted
     = startCamera firstRender noCamera
         (console_log "Voice Command: please start camera now" mounted).
Proof.
  apply (proj1 (proj2 (voice_command_classification
                         noCamera "  Please START camera now " mounted))).
  apply includes_iff_occurs. reflexivity.
Defined.

(** Trimming is all the handler does about white space: a second blank
    between the two words of a command is not overlooked. *)
Example doubled_blank_is_unknown :
  classify "start  camera" = Unknown.
Proof. reflexivity. Qed.

(** C9.  A transcript whose normal form contains both "start camera" and
    "stop camera" runs [startCamera] and not [stopCamera]: the test for the
    start phrase comes first, and no track is released. *)
Theorem start_phrase_takes_precedence
    (dev : Device) (t : string) (st : State) :
  occurs_in "start camera" (normalise t) ->
  occurs_in "stop camera" (normalise t) ->
  classify t = StartCamera
  /\ onresult dev t st
     = startCamera firstRender dev
         (console_log ("Voice Command: " ++ normalise t) st)
  /\ stoppedTracks (onresult dev t st) = stoppedTracks st.
Proof.
  intros Hstart _.
  pose proof (classify_start t Hstart) as Hc.
  assert (Ho : onresult dev t st
               = startCamera firstRender dev
                   (console_log ("Voice Command: " ++ normalise t) st)).
  { now rewrite onresult_perform, Hc. }
  repeat split; [exact Hc | exact Ho |].
  rewrite Ho, startCamera_stoppedTracks. reflexivity.
Qed.

Lemma start_phrase_takes_precedence_witness :
  classify "Stop camera, no, START camera" = StartCamera
  /\ onresult (webcam 2) "Stop camera, no, START camera" cameraOn
     = startCamera firstRender (webcam 2)
         (console_log "Voice Command: stop camera, no, start camera" cameraOn)
  /\ stoppedTracks (onresult (webcam 2) "Stop camera, no, START camera" cameraOn)
     = stoppedTracks cameraOn.
Proof.
  apply (start_phrase_takes_precedence
           (webcam 2) "Stop camera, no, START camera" cameraOn);
    apply includes_iff_occurs; reflexivity.
Defined.

(* ================================================================== *)
(** ** Choice of the expression label *)
(* ================================================================== *)

Section Selection.

Variable obj : list (string * Q).

Lemma gtb_true (p q : Q) : gtb p q = true -> q < p.
Proof.
  unfold gtb. intros H. apply negb_true_iff in H.
  apply Qnot_le_lt. intros Hle. apply Qle_bool_iff in Hle. congruence.
Qed.

Lemma gtb_false (p q : Q) : gtb p q = false -> p <= q.
Proof.
  unfold gtb. intros H. apply negb_false_iff in H.
  now apply Qle_bool_iff.
Qed.

(** The callback keeps the left label on a strictly higher score only. *)
Lemma pick_cases (a b : string) :
  (pick obj a b = a /\ score_of obj b < score_of obj a)
  \/ (pick obj a b = b /\ score_of obj a <= score_of obj b).
Proof.
  unfold pick. destruct (gtb (score_of obj a) (score_of obj b)) eqn:E.
  - left. split; [reflexivity | now apply gtb_true].
  - right. split; [reflexivity | now apply gtb_false].
Qed.

(** The reduction stops on a label that splits the keys in two: nothing
    before it scores higher, everything after it scores lower. *)
Lemma fold_pick_split (l : list string) (a : string) :
  exists before after,
    a :: l = (before ++ fold_left (pick obj) l a :: after)%list
    /\ (forall k, In k before ->
          score_of obj k <= score_of obj (fold_left (pick obj) l a))
    /\ (forall k, In k after ->
          score_of obj k < score_of obj (fold_left (pick obj) l a)).
Proof.
  revert a. induction l as [|b l IH]; intros a.
  - exists [], []. simpl. repeat split; intros k [].
  - cbn [fold_left].
    destruct (IH (pick obj a b)) as (before & after & Heq & Hle & Hlt).
    set (m := fold_left (pick obj) l (pick obj a b)) in *.
    destruct (pick_cases a b) as [[Hp Hba] | [Hp Hab]]; rewrite Hp in Heq.
    + (* [a] stays in the accumulator, [b] is passed over *)
      destruct before as [|a' before]; simpl in Heq.
      * injection Heq as Ha Hl. exists [], (b :: after).
        rewrite <- Ha, Hl in *. repeat split.
        -- intros k [].
        -- intros k [<- | Hk]; [exact Hba | now apply Hlt].
      * injection Heq as Ha Hl. subst a'.
        exists (a :: b :: before), after. rewrite Hl. repeat split.
        -- intros k [<- | [<- | Hk]].
           ++ apply Hle. now left.
           ++ apply Qlt_le_weak. apply Qlt_le_trans with (score_of obj a);
                [exact Hba | apply Hle; now left].
           ++ apply Hle. now right.
        -- exact Hlt.
    + (* [b] replaces [a] *)
      exists (a :: before), after. rewrite Heq. repeat split.
      * assert (Hb : score_of obj b <= score_of obj m).
        { destruct before as [|b' before]; simpl in Heq.
          - injection Heq as Hb _. rewrite <- Hb. apply Qle_refl.
          - injection Heq as Hb _. apply Hle. left. now symmetry. }
        intros k [<- | Hk]; [|now apply Hle].
        now apply Qle_trans with (score_of obj b).
      * exact Hlt.
Qed.

Lemma split_nth_error (l before after : list string) (m : string) :
  l = (before ++ m :: after)%list ->
  nth_error l (length before) = Some m
  /\ (forall j k, nth_error l j = Some k ->
        ((j < length before)%nat /\ In k before)
        \/ (j = length before /\ k = m)
        \/ ((length before < j)%nat /\ In k after)).
Proof.
  intros ->. split.
  - rewrite nth_error_app2, Nat.sub_diag; [reflexivity | lia].
  - intros j k Hj.
    destruct (Nat.lt_trichotomy j (length before)) as [H | [H | H]].
    + left. split; [exact H|].
      rewrite nth_error_app1 in Hj by exact H. now apply nth_error_In in Hj.
    + right; left. split; [exact H|].
      rewrite H, nth_error_app2, Nat.sub_diag in Hj by lia.
      simpl in Hj. congruence.
    + right; right. split; [exact H|].
      rewrite nth_error_app2 in Hj by lia.
      destruct (j - length before)%nat as [|i] eqn:E; [lia|].
      simpl in Hj. now apply nth_error_In in Hj.
Qed.

Lemma maxExpression_some :
  obj <> [] -> exists m, maxExpression obj = Some m.
Proof.
  unfold maxExpression, keys, reduce.
  destruct obj as [|[k v] rest]; [congruence | intros _].
  simpl. eauto.
Qed.

Lemma maxExpression_In (m : string) :
  maxExpression obj = Some m -> In m (keys obj).
Proof.
  unfold maxExpression, reduce.
  destruct (keys obj) as [|a l]; [discriminate|].
  intros H. injection H as <-.
  destruct (fold_pick_split l a) as (before & after & Heq & _).
  rewrite Heq. apply in_or_app. right. now left.
Qed.

Lemma maxExpression_upper (m : string) :
  maxExpression obj = Some m ->
  forall k, In k (keys obj) -> score_of obj k <= score_of obj m.
Proof.
  unfold maxExpression, reduce.
  destruct (keys obj) as [|a l]; [discriminate|].
  intros H. injection H as <-.
  destruct (fold_pick_split l a) as (before & after & Heq & Hle & Hlt).
  intros k Hk. rewrite Heq in Hk.
  apply in_app_or in Hk as [Hk | [<- | Hk]].
  - now apply Hle.
  - apply Qle_refl.
  - apply Qlt_le_weak. now apply Hlt.
Qed.

Lemma keys_In (k : string) :
  In k (keys obj) -> exists v, In (k, v) obj.
Proof.
  unfold keys. intros H. apply in_map_iff in H as ([k' v] & E & H).
  cbn in E. subst k'. now exists v.
Qed.

End Selection.

(** With distinct property names, reading a property gives the value the
    object pairs it with. *)
Lemma score_of_In (obj : list (string * Q)) (k : string) (v : Q) :
  NoDup (keys obj) -> In (k, v) obj -> score_of obj k = v.
Proof.
  unfold score_of. induction obj as [|[k' v'] rest IH]; intros Hnd Hin.
  - destruct Hin.
  - cbn in Hnd. inversion Hnd as [|? ? Hk' Hrest]; subst.
    cbn [get]. destruct Hin as [E | Hin].
    + injection E as -> ->. now rewrite String.eqb_refl.
    + destruct (String.eqb k' k) eqn:E.
      * apply String.eqb_eq in E. subst k'. elim Hk'.
        unfold keys. apply in_map_iff. now exists (k, v).
      * now apply IH.
Qed.

(** The label the reduction returns is one of maximum score. *)
Lemma maxExpression_is_argmax (obj : list (string * Q)) (m : string) :
  NoDup (keys obj) -> maxExpression obj = Some m -> is_argmax obj m.
Proof.
  intros Hnd Hmax.
  destruct (keys_In obj m (maxExpression_In obj m Hmax)) as [v Hv].
  exists v. split; [exact Hv|]. intros k w Hkw.
  rewrite <- (score_of_In obj k w Hnd Hkw), <- (score_of_In obj m v Hnd Hv).
  apply (maxExpression_upper obj m Hmax).
  unfold keys. apply in_map_iff. now exists (k, w).
Qed.

(** C4 (refuted as stated).  With two labels on the same, highest score the
    reduction returns the later one: the earlier label does not win. *)
Lemma tie_goes_to_the_later_label :
  maxExpression tiedScores = Some "sad"
  /\ nth_error (keys tiedScores) 0 = Some "happy"
  /\ nth_error (keys tiedScores) 1 = Some "sad"
  /\ score_of tiedScores "happy" == score_of tiedScores "sad"
  /\ ~ (forall obj m i j k,
          maxExpression obj = Some m ->
          nth_error (keys obj) i = Some m ->
          nth_error (keys obj) j = Some k ->
          score_of obj k == score_of obj m ->
          (i <= j)%nat).
Proof.
  repeat split; try reflexivity.
  intros H.
  specialize (H tiedScores "sad" 1%nat 0%nat "happy").
  assert (1 <= 0)%nat; [apply H; reflexivity | lia].
Qed.

(** C4 (amended).  On an expressions object with at least one property the
    selected label is a key of maximum score, and every key after it
    scores strictly lower: among labels that share the maximum the
    later-indexed one is selected. *)
Theorem maxExpression_is_last_maximum (obj : list (string * Q)) :
  obj <> [] ->
  exists m i,
    maxExpression obj = Some m
    /\ nth_error (keys obj) i = Some m
    /\ forall j k, nth_error (keys obj) j = Some k ->
         score_of obj k <= score_of obj m
         /\ ((i < j)%nat -> score_of obj k < score_of obj m).
Proof.
  intros Hne. unfold maxExpression, reduce.
  destruct (keys obj) as [|a l] eqn:Hk.
  { destruct obj; [congruence | discriminate]. }
  destruct (fold_pick_split obj l a) as (before & after & Heq & Hle & Hlt).
  set (m := fold_left (pick obj) l a) in *.
  destruct (split_nth_error (a :: l) before after m Heq) as [Hm Hpos].
  exists m, (length before). repeat split; [exact Hm | |].
  - destruct (Hpos j k H) as [[_ Hin] | [[_ ->] | [_ Hin]]].
    + now apply Hle.
    + apply Qle_refl.
    + apply Qlt_le_weak. now apply Hlt.
  - intros Hij.
    destruct (Hpos j k H) as [[Hj _] | [[Hj _] | [_ Hin]]]; try lia.
    now apply Hlt.
Qed.

Lemma maxExpression_is_last_maximum_witness :
  exists m i,
    maxExpression happyScores = Some m
    /\ nth_error (keys happyScores) i = Some m
    /\ forall j k, nth_error (keys happyScores) j = Some k ->
         score_of happyScores k <= score_of happyScores m
         /\ ((i < j)%nat -> score_of happyScores k < score_of happyScores m).
Proof.
  apply (maxExpression_is_last_maximum happyScores). discriminate.
Defined.

(* ================================================================== *)
(** ** Speech debouncing *)
(* ================================================================== *)

Section Debounce.

Lemma skipn_past (A : Type) (l more : list A) :
  skipn (length l) (l ++ more) = more.
Proof. induction l as [|a l IH]; simpl; [reflexivity | exact IH]. Qed.

Lemma spoken_nothing (st st' : State) :
  speech st' = speech st -> spoken st st' = [].
Proof. unfold spoken. intros ->. apply skipn_all. Qed.

Lemma spoken_more (st st' : State) (more : list SpeechEvent) :
  speech st' = (speech st ++ more)%list -> spoken st st' = more.
Proof. unfold spoken. intros ->. apply skipn_past. Qed.

(** A frame without faces. *)
Lemma aggregate_no_face (st : State) :
  exists st',
    aggregate [] st = Some st'
    /\ expression st' = "No face detected"
    /\ lastSpokenExpression st' = ""
    /\ speech st' = speech st.
Proof. eexists. repeat split. Qed.

(** A frame with a face whose expressions object has properties. *)
Lemma aggregate_face (face : FaceDetection) (others : list FaceDetection)
    (label : string) (st : State) :
  maxExpression (expressions face) = Some label ->
  exists st',
    aggregate (face :: others) st = Some st'
    /\ expression st'
       = label ++ " (" ++ confidence (expressions face) label ++ "%)"
    /\ lastSpokenExpression st' = label
    /\ spoken st st'
       = if String.eqb label (lastSpokenExpression st) then []
         else utterance label.
Proof.
  intros Hmax. unfold aggregate. rewrite Hmax. eexists.
  split; [reflexivity|]. unfold speakExpression. cbn [lastSpokenExpression setExpression].
  destruct (String.eqb label (lastSpokenExpression st)) eqn:E.
  - repeat split.
    + symmetry. now apply String.eqb_eq.
    + now apply spoken_nothing.
  - repeat split. now apply spoken_more.
Qed.

Lemma well_formed_label (face : FaceDetection)
    (others : list FaceDetection) :
  well_formed_frame (face :: others) ->
  exists label,
    maxExpression (expressions face) = Some label /\ label <> "".
Proof.
  intros [Hne Hempty].
  destruct (maxExpression_some (expressions face) Hne) as [label Hmax].
  exists label. split; [exact Hmax|].
  intros ->. apply Hempty. now apply maxExpression_In.
Qed.

(** On a label other than the empty string, the test [speakExpression]
    makes on the slot is the test for a change. *)
Lemma slot_test (last : option string) (label : string) :
  label <> "" ->
  (if String.eqb label (slot last) then [] else utterance label)
  = (if differs_from last label then utterance label else []).
Proof.
  intros Hne. destruct last as [spoken_label|]; simpl.
  - now destruct (String.eqb label spoken_label).
  - apply String.eqb_neq in Hne. now rewrite Hne.
Qed.

Lemma aggregate_all_expected (frames : list (list FaceDetection)) :
  Forall well_formed_frame frames ->
  Forall distinct_labels frames ->
  forall (last : option string) (st : State),
    lastSpokenExpression st = slot last ->
    exists chosen st',
      Forall2 frame_label frames chosen
      /\ aggregate_all frames st = Some (expected_speech last chosen, st').
Proof.
  induction 1 as [|resized rest Hwf _ IH]; intros Hnd last st Hslot.
  - exists [], st. split; [constructor | reflexivity].
  - inversion Hnd as [|? ? Hnd1 Hnd2]; subst.
    destruct resized as [|face others].
    + destruct (aggregate_no_face st) as (st1 & Hagg & _ & Hlast & Hsp).
      destruct (IH Hnd2 None st1 Hlast) as (chosen & st2 & Hch & Hrest).
      exists (None :: chosen), st2. split.
      * constructor; [reflexivity | exact Hch].
      * cbn [aggregate_all expected_speech].
        rewrite Hagg, Hrest. now rewrite (spoken_nothing st st1 Hsp).
    + destruct (well_formed_label face others Hwf) as (label & Hmax & Hne).
      destruct (aggregate_face face others label st Hmax)
        as (st1 & Hagg & _ & Hlast & Hsp).
      destruct (IH Hnd2 (Some label) st1 Hlast)
        as (chosen & st2 & Hch & Hrest).
      exists (Some label :: chosen), st2. split.
      * constructor; [|exact Hch]. exists label. split; [reflexivity|].
        now apply maxExpression_is_argmax.
      * cbn [aggregate_all expected_speech].
        rewrite Hagg, Hrest, Hsp, Hslot. now rewrite slot_test.
Qed.

End Debounce.

(** C5.  Over consecutive frames whose faces carry a label, the aggregator
    has the sentence "You look {label}" spoken exactly at the frames whose
    arg-max label differs from the label spoken last, the first such frame
    and the first one after a reset counting as a change from none; a frame
    whose label is the one spoken last says nothing; a frame without faces
    clears the slot, shows "No face detected" and says nothing.  The label
    of a frame is one to which the mapping of its first face gives a score
    that no other score of the mapping exceeds. *)
Theorem speech_exactly_on_label_change
    (frames : list (list FaceDetection)) (last : option string)
    (st : State) :
  Forall well_formed_frame frames ->
  Forall distinct_labels frames ->
  lastSpokenExpression st = slot last ->
  (exists chosen st',
     Forall2 frame_label frames chosen
     /\ aggregate_all frames st = Some (expected_speech last chosen, st'))
  /\ (forall face others,
        well_formed_frame (face :: others) ->
        distinct_labels (face :: others) ->
        exists label st',
          is_argmax (expressions face) label
          /\ aggregate (face :: others) st = Some st'
          /\ lastSpokenExpression st' = label
          /\ (last = None -> spoken st st' = utterance label)
          /\ (last = Some label -> spoken st st' = [])
          /\ (forall other, last = Some other -> other <> label ->
              spoken st st' = utterance label))
  /\ (exists st',
        aggregate [] st = Some st'
        /\ expression st' = "No face detected"
        /\ lastSpokenExpression st' = slot None
        /\ spoken st st' = []).
Proof.
  intros Hwf Hnd Hslot. split; [now apply aggregate_all_expected|]. split.
  - intros face others Hwf1 Hnd1.
    destruct (well_formed_label face others Hwf1) as (label & Hmax & Hne).
    destruct (aggregate_face face others label st Hmax)
      as (st1 & Hagg & _ & Hlast & Hsp).
    exists label, st1. rewrite Hsp, Hslot.
    split; [now apply maxExpression_is_argmax|].
    repeat split; [exact Hagg | exact Hlast | | |].
    + intros ->. simpl. apply String.eqb_neq in Hne. now rewrite Hne.
    + intros ->. simpl. now rewrite String.eqb_refl.
    + intros other -> Hdiff. simpl.
      assert (E : String.eqb label other = false).
      { apply String.eqb_neq. congruence. }
      now rewrite E.
  - destruct (aggregate_no_face st) as (st1 & Hagg & Hexp & Hlast & Hsp).
    exists st1. repeat split; try assumption. now apply spoken_nothing.
Qed.

(** The scenario of the specification, frame after frame. *)
Example scenario_happy_then_none_then_sad :
  (exists st1 st2 st3 st4,
     aggregate happyFrame mounted = Some st1
     /\ expression st1 = "happy (91.00%)"
     /\ speech st1 = [Cancel; Speak "You look happy"]
     /\ aggregate stillHappyFrame st1 = Some st2
     /\ expression st2 = "happy (60.00%)"
     /\ speech st2 = speech st1
     /\ aggregate [] st2 = Some st3
     /\ expression st3 = "No face detected"
     /\ lastSpokenExpression st3 = ""
     /\ speech st3 = speech st1
     /\ aggregate sadFrame st3 = Some st4
     /\ speech st4
        = [Cancel; Speak "You look happy"; Cancel; Speak "You look sad"]).
Proof.
  do 4 eexists. repeat split; vm_compute; reflexivity.
Qed.

Lemma speech_exactly_on_label_change_witness :
  exists chosen st',
    Forall2 frame_label
      [neutralFirstFrame; stillHappyFrame; []; sadFrame] chosen
    /\ aggregate_all [neutralFirstFrame; stillHappyFrame; []; sadFrame]
         mounted
       = Some (expected_speech None chosen, st').
Proof.
  apply (proj1 (speech_exactly_on_label_change
                  [neutralFirstFrame; stillHappyFrame; []; sadFrame]
                  None mounted
                  ltac:(repeat constructor; simpl; intuition discriminate)
                  ltac:(repeat constructor; simpl; intuition discriminate)
                  ltac:(reflexivity))).
Defined.

(* ================================================================== *)
(** ** The detection loop *)
(* ================================================================== *)

Section LoopFacts.

Lemma replace_nth_drop (n : nat) (ls : list Loop) (l : Loop) :
  nth_error ls n = Some l ->
  length (replace_nth n None ls) = pred (length ls).
Proof.
  revert n. induction ls as [|l0 ls IH]; intros [|n] H; try discriminate.
  - reflexivity.
  - simpl in H. cbn [replace_nth length]. rewrite (IH n H).
    destruct ls; [now destruct n | reflexivity].
Qed.

Lemma replace_nth_keep (n : nat) (ls : list Loop) (l l' : Loop) :
  nth_error ls n = Some l ->
  length (replace_nth n (Some l') ls) = length ls.
Proof.
  revert n. induction ls as [|l0 ls IH]; intros [|n] H; try discriminate.
  - reflexivity.
  - simpl in H. cbn [replace_nth length]. now rewrite (IH n H).
Qed.

Lemma detect_enter_fails (l : Loop) (st : State) :
  guard_fails l st = true -> detect_enter l st = None.
Proof. unfold detect_enter. now intros ->. Qed.

Lemma detect_enter_passes (l : Loop) (st : State) :
  guard_fails l st = false ->
  detect_enter l st = Some (set_pending AwaitFaces l).
Proof. unfold detect_enter. now intros ->. Qed.

(** A delivery that ends the call of [detect] takes the loop off the
    list of running loops. *)
Lemma deliver_ends (n : nat) (d : Delivery) (l : Loop) (st st1 : State) :
  nth_error (loops st) n = Some l ->
  resume l d st = Some (st1, None) ->
  loops st1 = loops st ->
  deliver n d st = set_loops (replace_nth n None (loops st)) st1
  /\ length (loops (deliver n d st)) = pred (length (loops st)).
Proof.
  intros Hn Hr Hl. unfold deliver. rewrite Hn, Hr, Hl.
  split; [reflexivity|]. cbn [loops set_loops].
  now apply replace_nth_drop with l.
Qed.

End LoopFacts.

(** C2 (refuted as stated).  The camera is on, its loop waits for the next
    animation frame and the video has been paused: the call of [detect]
    returns at the guard and the loop is gone. *)
Lemma paused_check_is_the_last_check :
  nth_error (loops cameraPaused) 0 = Some readyLoop
  /\ guard_fails readyLoop cameraPaused = true
  /\ detect_enter readyLoop cameraPaused = None
  /\ loops (deliver 0 AnimationFrame cameraPaused) = []
  /\ ~ (forall l st, guard_fails l st = true ->
          exists l', detect_enter l st = Some l').
Proof.
  repeat split; try (vm_compute; reflexivity).
  intros H. destruct (H readyLoop cameraPaused) as [l' Hl'].
  - vm_compute; reflexivity.
  - vm_compute in Hl'. discriminate.
Qed.

(** C2 (amended).  An iteration whose guard fails does no detection and no
    rendering (the state is left as it is) and does not schedule another
    iteration: the loop ends at that check. *)
Theorem failed_guard_ends_the_loop (l : Loop) (st : State) :
  guard_fails l st = true ->
  detect_enter l st = None
  /\ (forall faces objects, detect l faces objects st = (st, None))
  /\ (forall n, nth_error (loops st) n = Some l -> pending l = AwaitFrame ->
        deliver n AnimationFrame st
        = set_loops (replace_nth n None (loops st)) st
        /\ length (loops (deliver n AnimationFrame st))
           = pred (length (loops st))).
Proof.
  intros Hg. pose proof (detect_enter_fails l st Hg) as He.
  split; [exact He|]. split.
  - intros faces objects. unfold detect. now rewrite He.
  - intros n Hn Hp. apply deliver_ends with l; [exact Hn | | reflexivity].
    unfold resume. now rewrite Hp, He.
Qed.

Lemma failed_guard_ends_the_loop_witness :
  detect_enter readyLoop cameraPaused = None
  /\ (forall faces objects,
        detect readyLoop faces objects cameraPaused = (cameraPaused, None))
  /\ (forall n, nth_error (loops cameraPaused) n = Some readyLoop ->
        pending readyLoop = AwaitFrame ->
        deliver n AnimationFrame cameraPaused
        = set_loops (replace_nth n None (loops cameraPaused)) cameraPaused
        /\ length (loops (deliver n AnimationFrame cameraPaused))
           = pred (length (loops cameraPaused))).
Proof.
  apply (failed_guard_ends_the_loop readyLoop cameraPaused).
  vm_compute. reflexivity.
Defined.

(** C3 (refuted as stated).  The camera is on and the face provider
    rejects: nothing schedules the next iteration and the loop is gone. *)
Lemma rejected_frame_is_the_last_frame :
  guard_fails readyLoop cameraOn = false
  /\ detect readyLoop Rejected (Resolved []) cameraOn = (cameraOn, None)
  /\ loops (deliver 0 (FacesSettled Rejected) cameraOn) = []
  /\ ~ (forall l st objects, guard_fails l st = false ->
          exists st' l', detect l Rejected objects st = (st', Some l')).
Proof.
  repeat split; try (vm_compute; reflexivity).
  intros H.
  destruct (H readyLoop cameraOn (Resolved [])) as (st' & l' & Hd).
  - vm_compute; reflexivity.
  - vm_compute in Hd. discriminate.
Qed.

(** C3 (amended).  When a perception provider rejects, the call of [detect]
    ends there: what was done before the call stays, nothing after it is
    applied, and the next iteration is not scheduled, so the loop ends. *)
Theorem rejected_provider_ends_the_loop (l : Loop) (st : State) :
  guard_fails l st = false ->
  (forall objects, detect l Rejected objects st = (st, None))
  /\ (forall resized st1,
        aggregate resized (drawFaces resized st) = Some st1 ->
        detect l (Resolved resized) Rejected st = (st1, None))
  /\ (forall n, nth_error (loops st) n = Some l -> pending l = AwaitFaces ->
        deliver n (FacesSettled Rejected) st
        = set_loops (replace_nth n None (loops st)) st
        /\ length (loops (deliver n (FacesSettled Rejected) st))
           = pred (length (loops st)))
  /\ (forall n, nth_error (loops st) n = Some l -> pending l = AwaitObjects ->
        deliver n (ObjectsSettled Rejected) st
        = set_loops (replace_nth n None (loops st)) st
        /\ length (loops (deliver n (ObjectsSettled Rejected) st))
           = pred (length (loops st))).
Proof.
  intros Hg. pose proof (detect_enter_passes l st Hg) as He.
  split; [|split; [|split]].
  - intros objects. unfold detect. now rewrite He.
  - intros resized st1 Hagg. unfold detect. rewrite He.
    unfold detect_faces. now rewrite Hagg.
  - intros n Hn Hp. apply deliver_ends with l; [exact Hn | | reflexivity].
    unfold resume. now rewrite Hp.
  - intros n Hn Hp. apply deliver_ends with l; [exact Hn | | reflexivity].
    unfold resume. now rewrite Hp.
Qed.

Lemma rejected_provider_ends_the_loop_witness :
  (forall objects,
     detect readyLoop Rejected objects cameraOn = (cameraOn, None))
  /\ (forall resized st1,
        aggregate resized (drawFaces resized cameraOn) = Some st1 ->
        detect readyLoop (Resolved resized) Rejected cameraOn = (st1, None))
  /\ (forall n, nth_error (loops cameraOn) n = Some readyLoop ->
        pending readyLoop = AwaitFaces ->
        deliver n (FacesSettled Rejected) cameraOn
        = set_loops (replace_nth n None (loops cameraOn)) cameraOn
        /\ length (loops (deliver n (FacesSettled Rejected) cameraOn))
           = pred (length (loops cameraOn)))
  /\ (forall n, nth_error (loops cameraOn) n = Some readyLoop ->
        pending readyLoop = AwaitObjects ->
        deliver n (ObjectsSettled Rejected) cameraOn
        = set_loops (replace_nth n None (loops cameraOn)) cameraOn
        /\ length (loops (deliver n (ObjectsSettled Rejected) cameraOn))
           = pred (length (loops cameraOn))).
Proof.
  apply (rejected_provider_ends_the_loop readyLoop cameraOn).
  vm_compute. reflexivity.
Defined.

(* ================================================================== *)
(** ** Camera lifecycle *)
(* ================================================================== *)

Section Lifecycle.

(** What a start does when the device answers and the video plays. *)
Lemma startCamera_resolved (cl : Render) (dev : Device)
    (stream : MediaStream) (st : State) :
  getUserMedia dev = Resolved stream ->
  play dev = Resolved tt ->
  let st' := startCamera cl dev st in
  srcObject (video st') = Some stream
  /\ stoppedTracks st' = stoppedTracks st
  /\ isCameraOn st' = true
  /\ statusMessage st' = "Camera started"
  /\ loops st'
     = (loops st
        ++ if closure_ready cl && negb (ended (video st))
           then [{| closure := cl;
                    displaySize :=
                      (videoWidth (video st), videoHeight (video st));
                    pending := AwaitFaces |}]
           else [])%list.
Proof.
  intros Hdev Hplay st'. subst st'.
  unfold startCamera. rewrite Hdev, Hplay.
  unfold detectLoop, detect_enter, guard_fails, closure_ready.
  destruct st as [[src p e w h] c on msg ex ml cm last tr sp con lp].
  destruct cl as [[] [m|]]; destruct e; cbn;
    repeat split; now rewrite ?app_nil_r.
Qed.

(** What a start does when the device does not answer. *)
Lemma startCamera_rejected (cl : Render) (dev : Device) (st : State) :
  getUserMedia dev = Rejected ->
  startCamera cl dev st = console_log camera_error st.
Proof. unfold startCamera. now intros ->. Qed.

Lemma stopCamera_writes (st : State) :
  isCameraOn (stopCamera st) = false
  /\ statusMessage (stopCamera st) = "Camera stopped"
  /\ expression (stopCamera st) = ""
  /\ lastSpokenExpression (stopCamera st) = ""
  /\ content (canvas (stopCamera st)) = []
  /\ srcObject (video (stopCamera st)) = None.
Proof.
  unfold stopCamera.
  destruct st as [[[stream|] p e w h] c on msg ex ml cm last tr sp con lp];
    cbn; repeat split.
Qed.

Lemma stopCamera_releases (st : State) (stream : MediaStream) :
  srcObject (video st) = Some stream ->
  stoppedTracks (stopCamera st)
  = (stoppedTracks st ++ getTracks stream)%list.
Proof.
  unfold stopCamera. intros ->. reflexivity.
Qed.

Lemma stopCamera_idempotent (st : State) :
  stopCamera (stopCamera st) = stopCamera st.
Proof.
  unfold stopCamera.
  destruct st as [[[stream|] p e w h] c on msg ex ml cm last tr sp con lp];
    reflexivity.
Qed.

Lemma status_differs (st st' : State) :
  statusMessage st' <> statusMessage st -> st' <> st.
Proof. intros H E. apply H. now rewrite E. Qed.

End Lifecycle.

(** C1 (refuted as stated).  With the models loaded and the camera on, a
    second start from the button attaches a second stream, leaves the first
    one's track running and puts a second detection loop next to the
    first. *)
Lemma second_start_adds_a_second_loop :
  isCameraOn cameraOn = true
  /\ length (loops cameraOn) = 1%nat
  /\ cameraOnTwice = clickStart (webcam 2) cameraOn
  /\ cameraOnTwice <> cameraOn
  /\ srcObject (video cameraOnTwice) = Some {| getTracks := [2%nat] |}
  /\ stoppedTracks cameraOnTwice = []
  /\ length (loops cameraOnTwice) = 2%nat
  /\ ~ (forall cl dev st, isCameraOn st = true ->
          startCamera cl dev st = st).
Proof.
  assert (Hneq : cameraOnTwice <> cameraOn).
  { intros E. apply (f_equal (fun s => length (loops s))) in E.
    vm_compute in E. discriminate. }
  repeat split; try (vm_compute; reflexivity); try exact Hneq.
  intros H. apply Hneq. apply (H readyRender (webcam 2) cameraOn).
  vm_compute. reflexivity.
Qed.

(** C1 (amended).  A start while the camera is on is carried out like any
    other: when the device answers and the video plays, the new stream is
    attached (no track of the stream it replaces is released), the camera
    stays on and, if the guard of [detect] passes, one more detection loop
    is added to those already running. *)
Theorem start_while_on_starts_again (cl : Render) (dev : Device)
    (stream : MediaStream) (st : State) :
  isCameraOn st = true ->
  getUserMedia dev = Resolved stream ->
  play dev = Resolved tt ->
  let st' := startCamera cl dev st in
  srcObject (video st') = Some stream
  /\ stoppedTracks st' = stoppedTracks st
  /\ isCameraOn st' = true
  /\ statusMessage st' = "Camera started"
  /\ loops st'
     = (loops st
        ++ if closure_ready cl && negb (ended (video st))
           then [{| closure := cl;
                    displaySize :=
                      (videoWidth (video st), videoHeight (video st));
                    pending := AwaitFaces |}]
           else [])%list.
Proof.
  intros _ Hdev Hplay. now apply startCamera_resolved.
Qed.

Lemma start_while_on_starts_again_witness :
  srcObject (video cameraOnTwice) = Some {| getTracks := [2%nat] |}
  /\ stoppedTracks cameraOnTwice = stoppedTracks cameraOn
  /\ isCameraOn cameraOnTwice = true
  /\ statusMessage cameraOnTwice = "Camera started"
  /\ loops cameraOnTwice
     = (loops cameraOn
        ++ [{| closure := readyRender; displaySize := (0%Z, 0%Z);
               pending := AwaitFaces |}])%list.
Proof.
  apply (start_while_on_starts_again
           readyRender (webcam 2) {| getTracks := [2%nat] |} cameraOn);
    reflexivity.
Defined.

(** C8 (refuted as stated).  When the device does not answer, the status
    text stays what it was: the failure is written to the console only. *)
Lemma failed_start_keeps_the_status_text :
  statusMessage (clickStart noCamera loaded)
  = "Say 'start camera' or use the buttons"
  /\ statusMessage (clickStart noCamera loaded) = statusMessage loaded
  /\ console (clickStart noCamera loaded) = ["Camera error:"]
  /\ ~ (forall cl dev st, getUserMedia dev = Rejected ->
          statusMessage (startCamera cl dev st) <> statusMessage st).
Proof.
  repeat split; try (vm_compute; reflexivity).
  intros H. apply (H readyRender noCamera loaded); reflexivity.
Qed.

(** C8 (amended).  When acquiring the capture device fails, the start
    leaves the session as it was (an Off session stays Off), starts no
    detection loop and does not touch the status text; it writes the error
    to the console. *)
Theorem failed_start_changes_the_console_only (cl : Render) (dev : Device)
    (st : State) :
  getUserMedia dev = Rejected ->
  let st' := startCamera cl dev st in
  st' = console_log camera_error st
  /\ isCameraOn st' = isCameraOn st
  /\ video st' = video st
  /\ loops st' = loops st
  /\ statusMessage st' = statusMessage st
  /\ console st' = (console st ++ [camera_error])%list.
Proof.
  intros Hdev st'. subst st'. rewrite (startCamera_rejected cl dev st Hdev).
  repeat split.
Qed.

Lemma failed_start_changes_the_console_only_witness :
  startCamera readyRender noCamera loaded = console_log camera_error loaded
  /\ isCameraOn (startCamera readyRender noCamera loaded) = isCameraOn loaded
  /\ video (startCamera readyRender noCamera loaded) = video loaded
  /\ loops (startCamera readyRender noCamera loaded) = loops loaded
  /\ statusMessage (startCamera readyRender noCamera loaded)
     = statusMessage loaded
  /\ console (startCamera readyRender noCamera loaded)
     = (console loaded ++ [camera_error])%list.
Proof.
  apply (failed_start_changes_the_console_only readyRender noCamera loaded).
  reflexivity.
Defined.

(** C6 (refuted as stated).  After a stop the status text reads "Camera
    stopped", which is not its initial value; and a stop on the freshly
    mounted page, where the camera is off, changes the state. *)
Lemma stop_leaves_its_status_text :
  statusMessage (stopCamera cameraOn) = "Camera stopped"
  /\ statusMessage
       (initialState (video (stopCamera cameraOn))
          (canvas (stopCamera cameraOn)))
     = "Say 'start camera' or use the buttons"
  /\ isCameraOn mounted = false
  /\ srcObject (video mounted) = None
  /\ stopCamera mounted <> mounted
  /\ ~ (forall st, isCameraOn st = false -> srcObject (video st) = None ->
          stopCamera st = st).
Proof.
  assert (Hneq : stopCamera mounted <> mounted).
  { apply status_differs. vm_compute. discriminate. }
  repeat split; try (vm_compute; reflexivity); try exact Hneq.
  intros H. apply Hneq. apply H; reflexivity.
Qed.

(** C6 (amended).  A stop with an active stream releases every track of
    the stream, detaches it from the video, clears the whole overlay, the
    expression text and the debounce slot, turns the camera flag off and
    sets the status text to "Camera stopped": the overlay is blank, and the
    camera flag, the expression text and the debounce slot (not the status
    text) have their initial values.  A stop on the state a stop has left
    changes nothing. *)
Theorem stop_releases_and_clears (st : State) (stream : MediaStream) :
  srcObject (video st) = Some stream ->
  let st' := stopCamera st in
  (forall track, In track (getTracks stream) -> In track (stoppedTracks st'))
  /\ srcObject (video st') = None
  /\ content (canvas st') = []
  /\ expression st' = ""
  /\ lastSpokenExpression st' = ""
  /\ isCameraOn st' = false
  /\ statusMessage st' = "Camera stopped"
  /\ (forall v c,
        isCameraOn st' = isCameraOn (initialState v c)
        /\ expression st' = expression (initialState v c)
        /\ lastSpokenExpression st'
           = lastSpokenExpression (initialState v c))
  /\ stopCamera st' = st'.
Proof.
  intros Hsrc st'. subst st'.
  destruct (stopCamera_writes st) as (Hon & Hmsg & Hex & Hlast & Hcv & Hv).
  split.
  { intros track Hin. rewrite (stopCamera_releases st stream Hsrc).
    apply in_or_app. now right. }
  repeat split; try assumption.
  apply stopCamera_idempotent.
Qed.

Lemma stop_releases_and_clears_witness :
  (forall track, In track [1%nat] -> In track (stoppedTracks (stopCamera cameraOn)))
  /\ srcObject (video (stopCamera cameraOn)) = None
  /\ content (canvas (stopCamera cameraOn)) = []
  /\ expression (stopCamera cameraOn) = ""
  /\ lastSpokenExpression (stopCamera cameraOn) = ""
  /\ isCameraOn (stopCamera cameraOn) = false
  /\ statusMessage (stopCamera cameraOn) = "Camera stopped"
  /\ (forall v c,
        isCameraOn (stopCamera cameraOn) = isCameraOn (initialState v c)
        /\ expression (stopCamera cameraOn) = expression (initialState v c)
        /\ lastSpokenExpression (stopCamera cameraOn)
           = lastSpokenExpression (initialState v c))
  /\ stopCamera (stopCamera cameraOn) = stopCamera cameraOn.
Proof.
  apply (stop_releases_and_clears cameraOn {| getTracks := [1%nat] |}).
  reflexivity.
Defined.

(** C10 (refuted as stated).  On the freshly mounted page the camera is
    off and the models are not loaded: the page shows "Loading models..."
    in place of the status text, and a stop leaves everything the page
    shows as it was. *)
Lemma stop_on_a_loading_page_shows_no_change :
  isCameraOn mounted = false
  /\ statusLine (view mounted) = "Loading models..."
  /\ statusLine (view (stopCamera mounted)) = "Loading models..."
  /\ view (stopCamera mounted) = view mounted
  /\ content (canvas (stopCamera mounted)) = content (canvas mounted)
  /\ ~ (forall st, isCameraOn st = false ->
          statusLine (view (stopCamera st)) <> statusLine (view st)).
Proof.
  repeat split; try reflexivity.
  intros H. now apply (H mounted).
Qed.

(** C10 (amended).  Every stop, one made while the camera is off included,
    sets the status message to "Camera stopped", clears the expression text
    and resets the debounce slot, so that on a state whose status message
    reads otherwise the stop changes the state.  Once the models are
    loaded the page shows the status message, and such a stop changes the
    text the page shows; while they are not, the page shows "Loading
    models..." before and after. *)
Theorem stop_always_writes_the_status (st : State) :
  statusMessage (stopCamera st) = "Camera stopped"
  /\ expression (stopCamera st) = ""
  /\ lastSpokenExpression (stopCamera st) = ""
  /\ (statusMessage st <> "Camera stopped" -> stopCamera st <> st)
  /\ (isCameraOn mounted = false
      /\ srcObject (video mounted) = None
      /\ statusMessage (stopCamera mounted) <> statusMessage mounted
      /\ stopCamera mounted <> mounted)
  /\ (modelsLoaded st = true ->
      statusLine (view (stopCamera st)) = "Camera stopped"
      /\ (statusMessage st <> "Camera stopped" ->
          statusLine (view (stopCamera st)) <> statusLine (view st)))
  /\ (modelsLoaded st = false ->
      statusLine (view (stopCamera st)) = "Loading models..."
      /\ statusLine (view (stopCamera st)) = statusLine (view st))
  /\ (isCameraOn loaded = false
      /\ srcObject (video loaded) = None
      /\ statusLine (view loaded) = "Say 'start camera' or use the buttons"
      /\ statusLine (view (stopCamera loaded)) = "Camera stopped").
Proof.
  destruct (stopCamera_writes st) as (_ & Hmsg & Hex & Hlast & _).
  assert (Hml : modelsLoaded (stopCamera st) = modelsLoaded st).
  { unfold stopCamera. now destruct (srcObject (video st)). }
  split; [exact Hmsg|]. split; [exact Hex|]. split; [exact Hlast|].
  split; [intros Hne; apply status_differs; now rewrite Hmsg|].
  split.
  { repeat split; try (apply status_differs); vm_compute; discriminate. }
  split.
  { intros Hl. unfold view. cbn [statusLine]. rewrite Hml, Hl, Hmsg.
    split; [reflexivity|]. intros Hne E. now apply Hne. }
  split.
  { intros Hl. unfold view. cbn [statusLine]. rewrite Hml, Hl. now split. }
  repeat split.
Qed.

Lemma stop_always_writes_the_status_witness :
  stopCamera loaded <> loaded
  /\ statusLine (view (stopCamera loaded)) <> statusLine (view loaded).
Proof.
  split.
  - apply (proj1 (proj2 (proj2 (proj2
                                 (stop_always_writes_the_status loaded))))).
    vm_compute. discriminate.
  - apply (proj1 (proj2 (proj2 (proj2 (proj2 (proj2
             (stop_always_writes_the_status loaded)))))) eq_refl).
    vm_compute. discriminate.
Defined.

(* ================================================================== *)
(** ** What each handler leaves alone *)
(* ================================================================== *)

Section Frames.

Lemma untouched_refl (st : State) : untouched st st.
Proof. unfold untouched. repeat split. Qed.

Lemma untouched_trans (st st1 st2 : State) :
  untouched st st1 -> untouched st1 st2 -> untouched st st2.
Proof.
  unfold untouched.
  intros (A1 & A2 & A3 & A4 & A5 & A6 & A7 & A8 & A9)
         (B1 & B2 & B3 & B4 & B5 & B6 & B7 & B8 & B9).
  repeat split; congruence.
Qed.

Lemma draw_untouched (op : DrawOp) (st : State) : untouched st (draw op st).
Proof. unfold untouched. repeat split. Qed.

Lemma clearRect_untouched (st : State) : untouched st (clearRect st).
Proof. unfold untouched. repeat split. Qed.

Lemma drawFaces_untouched (resized : list FaceDetection) (st : State) :
  untouched st (drawFaces resized st).
Proof. unfold untouched. repeat split. Qed.

Lemma speakExpression_untouched (text : string) (st : State) :
  untouched st (speakExpression text st).
Proof.
  unfold speakExpression.
  destruct (String.eqb text (lastSpokenExpression st));
    unfold untouched; repeat split.
Qed.

Lemma aggregate_untouched (resized : list FaceDetection) (st st1 : State) :
  aggregate resized st = Some st1 -> untouched st st1.
Proof.
  unfold aggregate. destruct resized as [|face others].
  - intros H. injection H as <-. unfold untouched. repeat split.
  - destruct (maxExpression (expressions face)) as [label|]; [|discriminate].
    intros H. injection H as <-.
    eapply untouched_trans; [|apply draw_untouched].
    eapply untouched_trans; [|apply speakExpression_untouched].
    unfold untouched. repeat split.
Qed.

Lemma drawPredictions_untouched (predictions : list ObjectDetection)
    (st : State) :
  untouched st (fold_left drawPrediction predictions st).
Proof.
  revert st. induction predictions as [|pred rest IH]; intros st.
  - apply untouched_refl.
  - cbn [fold_left]. eapply untouched_trans; [|apply IH].
    unfold untouched. repeat split.
Qed.

(** Paint, text and speech aside, the loop also leaves the list of running
    loops to the scheduler. *)
Lemma aggregate_loops (resized : list FaceDetection) (st st1 : State) :
  aggregate resized st = Some st1 -> loops st1 = loops st.
Proof.
  unfold aggregate. destruct resized as [|face others].
  - intros H. now injection H as <-.
  - destruct (maxExpression (expressions face)) as [label|]; [|discriminate].
    intros H. injection H as <-. unfold speakExpression.
    now destruct (String.eqb label _).
Qed.

Lemma drawPredictions_loops (predictions : list ObjectDetection)
    (st : State) :
  loops (fold_left drawPrediction predictions st) = loops st.
Proof.
  revert st. induction predictions as [|pred rest IH]; intros st;
    [reflexivity|]. cbn [fold_left]. now rewrite IH.
Qed.

Lemma resume_untouched (l : Loop) (d : Delivery) (st st1 : State)
    (l' : option Loop) :
  resume l d st = Some (st1, l') ->
  untouched st st1 /\ loops st1 = loops st.
Proof.
  unfold resume.
  destruct (pending l), d as [|[resized|]|[predictions|]];
    try discriminate; cbn [detect_faces detect_objects].
  - destruct (aggregate resized (drawFaces resized st)) as [st2|] eqn:E;
      intros H; injection H as <- _.
    + split.
      * eapply untouched_trans; [apply (drawFaces_untouched resized)|].
        now apply aggregate_untouched with resized.
      * rewrite (aggregate_loops _ _ _ E). reflexivity.
    + split; [apply drawFaces_untouched | reflexivity].
  - intros H. injection H as <- _. split; [apply untouched_refl | reflexivity].
  - intros H. injection H as <- _.
    split; [apply drawPredictions_untouched | apply drawPredictions_loops].
  - intros H. injection H as <- _. split; [apply untouched_refl | reflexivity].
  - intros H. injection H as <- _. split; [apply untouched_refl | reflexivity].
Qed.

Lemma deliver_untouched (n : nat) (d : Delivery) (st : State) :
  untouched st (deliver n d st).
Proof.
  unfold deliver. destruct (nth_error (loops st) n) as [l|];
    [|apply untouched_refl].
  destruct (resume l d st) as [[st1 l']|] eqn:E; [|apply untouched_refl].
  destruct (resume_untouched l d st st1 l' E) as [Hu _].
  eapply untouched_trans; [exact Hu|]. unfold untouched. repeat split.
Qed.

(** A resumed call hands the loop back with its closure as it was. *)
Lemma resume_closure (l l' : Loop) (d : Delivery) (st st1 : State) :
  resume l d st = Some (st1, Some l') ->
  closure l' = closure l /\ displaySize l' = displaySize l.
Proof.
  unfold resume, detect_enter.
  destruct (pending l), d as [|[resized|]|[predictions|]];
    cbn [detect_faces detect_objects];
    try destruct (aggregate resized (drawFaces resized st));
    try destruct (guard_fails l st);
    intros H; try discriminate H; injection H as _ <-; now split.
Qed.

Lemma replace_nth_length_le (n : nat) (l' : option Loop) (ls : list Loop) :
  (length (replace_nth n l' ls) <= length ls)%nat.
Proof.
  revert n. induction ls as [|l0 ls IH]; intros [|n]; cbn [replace_nth].
  - apply Nat.le_refl.
  - apply Nat.le_refl.
  - destruct l'; cbn [length]; lia.
  - cbn [length]. specialize (IH n). lia.
Qed.

Lemma replace_nth_Forall (P : Loop -> Prop) (n : nat) (l' : option Loop)
    (ls : list Loop) :
  Forall P ls ->
  match l' with Some l1 => P l1 | None => True end ->
  Forall P (replace_nth n l' ls).
Proof.
  intros Hls Hl'. revert n.
  induction Hls as [|l0 ls H0 Hls IH]; intros [|n]; cbn [replace_nth];
    try constructor; auto.
  destruct l'; [constructor|]; assumption.
Qed.

Lemma deliver_loops_length (n : nat) (d : Delivery) (st : State) :
  (length (loops (deliver n d st)) <= length (loops st))%nat.
Proof.
  unfold deliver. destruct (nth_error (loops st) n) as [l|];
    [|apply Nat.le_refl].
  destruct (resume l d st) as [[st1 l']|] eqn:E; [|apply Nat.le_refl].
  destruct (resume_untouched l d st st1 l' E) as [_ Hl].
  cbn [loops set_loops]. rewrite Hl. apply replace_nth_length_le.
Qed.

Lemma stopCamera_loops (st : State) : loops (stopCamera st) = loops st.
Proof.
  unfold stopCamera. now destruct (srcObject (video st)).
Qed.

Lemma stopCamera_keeps (st : State) :
  modelsLoaded (stopCamera st) = modelsLoaded st
  /\ cocoModel (stopCamera st) = cocoModel st
  /\ speech (stopCamera st) = speech st
  /\ console (stopCamera st) = console st.
Proof.
  unfold stopCamera. destruct (srcObject (video st)); repeat split.
Qed.

Lemma startCamera_keeps (cl : Render) (dev : Device) (st : State) :
  modelsLoaded (startCamera cl dev st) = modelsLoaded st
  /\ cocoModel (startCamera cl dev st) = cocoModel st
  /\ speech (startCamera cl dev st) = speech st
  /\ lastSpokenExpression (startCamera cl dev st) = lastSpokenExpression st
  /\ expression (startCamera cl dev st) = expression st
  /\ stoppedTracks (startCamera cl dev st) = stoppedTracks st.
Proof.
  open_start; repeat split.
Qed.

(** A closure that is not ready never gets past the guard. *)
Lemma guard_fails_not_ready (l : Loop) (st : State) :
  closure_ready (closure l) = false -> guard_fails l st = true.
Proof.
  unfold closure_ready, guard_fails.
  destruct (r_modelsLoaded (closure l)); [|reflexivity].
  now destruct (r_cocoModel (closure l)).
Qed.

Lemma guard_passes_ready (l : Loop) (st : State) :
  guard_fails l st = false -> closure_ready (closure l) = true.
Proof.
  intros H. destruct (closure_ready (closure l)) eqn:E; [reflexivity|].
  now rewrite (guard_fails_not_ready l st E) in H.
Qed.

Lemma startCamera_loops_not_ready (cl : Render) (dev : Device)
    (st : State) :
  closure_ready cl = false -> loops (startCamera cl dev st) = loops st.
Proof.
  intros Hcl. unfold startCamera, detectLoop, detect_enter.
  destruct (getUserMedia dev); [|reflexivity].
  destruct (play dev); [|reflexivity].
  rewrite guard_fails_not_ready by exact Hcl. reflexivity.
Qed.

(** A start adds at most one loop, and only one whose closure is ready. *)
Lemma startCamera_loops (cl : Render) (dev : Device) (st : State) :
  loops (startCamera cl dev st) = loops st
  \/ (closure_ready cl = true
      /\ exists l, closure l = cl
                   /\ loops (startCamera cl dev st) = (loops st ++ [l])%list).
Proof.
  unfold startCamera, detectLoop, detect_enter.
  destruct (getUserMedia dev); [|now left].
  destruct (play dev); [|now left].
  match goal with
  | |- context [guard_fails ?l ?s] => destruct (guard_fails l s) eqn:E
  end; [now left|].
  right. split.
  - now apply guard_passes_ready in E.
  - eexists. split; [|reflexivity]. reflexivity.
Qed.

Lemma run_app (evs evs' : list Event) (st : State) :
  run (evs ++ evs') st = run evs' (run evs st).
Proof. unfold run. apply fold_left_app. Qed.

(** Induction over the events the component goes through. *)
Lemma run_invariant (P : State -> Prop) (Q : Event -> Prop) :
  (forall ev st, Q ev -> P st -> P (step ev st)) ->
  forall evs st, Forall Q evs -> P st -> P (run evs st).
Proof.
  intros Hstep evs. induction evs as [|ev evs IH]; intros st Hq Hp.
  - exact Hp.
  - inversion Hq as [|? ? Hev Hevs]; subst. cbn [run fold_left].
    apply IH; [exact Hevs | now apply Hstep].
Qed.

Lemma Forall_trivial (evs : list Event) : Forall (fun _ => True) evs.
Proof. induction evs; constructor; auto. Qed.

End Frames.

(* ================================================================== *)
(** ** Starts that detect nothing, streams that stay live *)
(* ================================================================== *)

Section Starts.

Lemma loadModels_loops (ok : bool) (st : State) :
  loops (loadModels ok st) = loops st.
Proof. unfold loadModels. now destruct ok. Qed.

Lemma startCamera_srcObject (cl : Render) (dev : Device) (st : State) :
  srcObject (video (startCamera cl dev st))
  = match getUserMedia dev with
    | Resolved stream => Some stream
    | Rejected => srcObject (video st)
    end.
Proof. open_start; reflexivity. Qed.

Lemma stopCamera_tracks (st : State) :
  stoppedTracks (stopCamera st)
  = (stoppedTracks st ++ attached_tracks st)%list
  /\ attached_tracks (stopCamera st) = [].
Proof.
  unfold stopCamera, attached_tracks.
  destruct (srcObject (video st)) as [stream|] eqn:E; cbn.
  - now split.
  - rewrite E, app_nil_r. now split.
Qed.

(** A track that is neither released nor attached stays so through any
    event that does not hand it out again. *)
Lemma step_keeps_displaced (track : nat) (ev : Event) (st : State) :
  ~ hands_out track ev ->
  ~ In track (stoppedTracks st) /\ ~ In track (attached_tracks st) ->
  ~ In track (stoppedTracks (step ev st))
  /\ ~ In track (attached_tracks (step ev st)).
Proof.
  intros Hfresh [Hs Ha].
  assert (Hstart : forall cl dev st0,
             stoppedTracks st0 = stoppedTracks st ->
             video st0 = video st ->
             ~ match getUserMedia dev with
               | Resolved stream => In track (getTracks stream)
               | Rejected => False
               end ->
             ~ In track (stoppedTracks (startCamera cl dev st0))
             /\ ~ In track (attached_tracks (startCamera cl dev st0))).
  { intros cl dev st0 Hst Hv Hdev.
    destruct (startCamera_keeps cl dev st0) as (_ & _ & _ & _ & _ & Htr).
    rewrite Htr, Hst. split; [exact Hs|].
    unfold attached_tracks. rewrite startCamera_srcObject.
    destruct (getUserMedia dev) as [stream|]; [exact Hdev|].
    rewrite Hv. exact Ha. }
  assert (Hstop : forall st0,
             stoppedTracks st0 = stoppedTracks st ->
             video st0 = video st ->
             ~ In track (stoppedTracks (stopCamera st0))
             /\ ~ In track (attached_tracks (stopCamera st0))).
  { intros st0 Hst Hv.
    destruct (stopCamera_tracks st0) as [Htr Hat]. rewrite Htr, Hat, Hst.
    split; [|intros []]. intros Hin. apply in_app_or in Hin as [Hin|Hin].
    - now apply Hs.
    - apply Ha. unfold attached_tracks in *. now rewrite <- Hv. }
  destruct ev as [ok|dev| |dev transcript|n d|p e w h]; cbn [step].
  - unfold loadModels. destruct ok; now split.
  - now apply Hstart.
  - now apply Hstop.
  - unfold onresult.
    destruct (includes (normalise transcript) "start camera").
    + now apply Hstart.
    + destruct (includes (normalise transcript) "stop camera").
      * now apply Hstop.
      * now split.
  - destruct (deliver_untouched n d st) as (Hv & _ & _ & _ & _ & Htr & _).
    unfold attached_tracks. rewrite Htr, Hv. now split.
  - now split.
Qed.

Lemma onresult_loops (dev : Device) (t : string) (st : State) :
  loops (onresult dev t st) = loops st.
Proof.
  unfold onresult.
  destruct (includes (normalise t) "start camera").
  - now rewrite startCamera_loops_not_ready.
  - destruct (includes (normalise t) "stop camera"); [|reflexivity].
    now rewrite stopCamera_loops.
Qed.

End Starts.

(** X1.  A start asked for by voice never begins a detection loop: the
    recognition handler keeps the [startCamera] of the first render, whose
    [detect] sees the models as not loaded and returns at the guard.  With
    the device answering, the camera is reported on all the same. *)
Theorem voice_start_never_detects (dev : Device) (t : string) (st : State) :
  loops (onresult dev t st) = loops st
  /\ (forall stream,
        occurs_in "start camera" (normalise t) ->
        getUserMedia dev = Resolved stream ->
        play dev = Resolved tt ->
        isCameraOn (onresult dev t st) = true
        /\ srcObject (video (onresult dev t st)) = Some stream
        /\ content (canvas (onresult dev t st)) = []).
Proof.
  split; [apply onresult_loops|].
  - intros stream Hocc Hdev Hplay. apply includes_iff_occurs in Hocc.
    unfold onresult. rewrite Hocc.
    unfold startCamera, detectLoop, detect_enter. rewrite Hdev, Hplay.
    rewrite guard_fails_not_ready by reflexivity. repeat split.
Qed.

Lemma voice_start_never_detects_witness :
  isCameraOn (onresult (webcam 1) "Start camera" loaded) = true
  /\ srcObject (video (onresult (webcam 1) "Start camera" loaded))
     = Some {| getTracks := [1%nat] |}
  /\ content (canvas (onresult (webcam 1) "Start camera" loaded)) = [].
Proof.
  apply (proj2 (voice_start_never_detects (webcam 1) "Start camera" loaded)
           {| getTracks := [1%nat] |});
    [apply includes_iff_occurs|..]; reflexivity.
Defined.

(** X2.  A start from the button while the models are not loaded begins no
    detection loop, and the models' arrival afterwards begins none either:
    detection needs another start. *)
Theorem start_before_models_never_detects (dev : Device) (st : State) :
  modelsLoaded st = false ->
  loops (clickStart dev st) = loops st
  /\ forall ok, loops (loadModels ok (clickStart dev st)) = loops st.
Proof.
  intros Hml.
  assert (H : loops (clickStart dev st) = loops st).
  { unfold clickStart. apply startCamera_loops_not_ready.
    unfold closure_ready, render. cbn. now rewrite Hml. }
  split; [exact H|]. intros ok. now rewrite loadModels_loops.
Qed.

Lemma start_before_models_never_detects_witness :
  loops (clickStart (webcam 1) mounted) = loops mounted
  /\ forall ok, loops (loadModels ok (clickStart (webcam 1) mounted))
                = loops mounted.
Proof.
  apply (start_before_models_never_detects (webcam 1) mounted). reflexivity.
Defined.

(** X3.  When the device answers but [play()] rejects, the stream stays
    attached to the video with its tracks live, while the camera flag, the
    status text and the running loops are what they were: only the console
    tells.  The next stop releases the tracks. *)
Theorem play_rejected_leaves_the_stream_attached (cl : Render) (dev : Device)
    (stream : MediaStream) (st : State) :
  getUserMedia dev = Resolved stream ->
  play dev = Rejected ->
  let st' := startCamera cl dev st in
  srcObject (video st') = Some stream
  /\ stoppedTracks st' = stoppedTracks st
  /\ isCameraOn st' = isCameraOn st
  /\ statusMessage st' = statusMessage st
  /\ loops st' = loops st
  /\ console st' = (console st ++ [camera_error])%list
  /\ stoppedTracks (stopCamera st')
     = (stoppedTracks st ++ getTracks stream)%list.
Proof.
  intros Hdev Hplay st'. subst st'.
  unfold startCamera. rewrite Hdev, Hplay. repeat split.
Qed.

Lemma play_rejected_leaves_the_stream_attached_witness :
  srcObject (video (startCamera readyRender (blockedPlayback 7) loaded))
  = Some {| getTracks := [7%nat] |}
  /\ stoppedTracks (startCamera readyRender (blockedPlayback 7) loaded)
     = stoppedTracks loaded
  /\ isCameraOn (startCamera readyRender (blockedPlayback 7) loaded)
     = isCameraOn loaded
  /\ statusMessage (startCamera readyRender (blockedPlayback 7) loaded)
     = statusMessage loaded
  /\ loops (startCamera readyRender (blockedPlayback 7) loaded) = loops loaded
  /\ console (startCamera readyRender (blockedPlayback 7) loaded)
     = (console loaded ++ [camera_error])%list
  /\ stoppedTracks
       (stopCamera (startCamera readyRender (blockedPlayback 7) loaded))
     = (stoppedTracks loaded ++ [7%nat])%list.
Proof.
  apply (play_rejected_leaves_the_stream_attached readyRender
           (blockedPlayback 7) {| getTracks := [7%nat] |} loaded);
    reflexivity.
Defined.

(** X4.  The component releases the tracks of the attached stream only: a
    track that is neither released nor attached, such as one of a stream a
    second start has displaced, is never released by anything that happens
    later, as long as no device hands it out again. *)
Theorem displaced_tracks_are_never_released (track : nat)
    (evs : list Event) (st : State) :
  ~ In track (stoppedTracks st) ->
  ~ In track (attached_tracks st) ->
  Forall (fun ev => ~ hands_out track ev) evs ->
  ~ In track (stoppedTracks (run evs st))
  /\ ~ In track (attached_tracks (run evs st)).
Proof.
  intros Hs Ha Hevs.
  apply (run_invariant
           (fun s => ~ In track (stoppedTracks s)
                     /\ ~ In track (attached_tracks s))
           (fun ev => ~ hands_out track ev)).
  - intros ev s Hev Hp. now apply step_keeps_displaced.
  - exact Hevs.
  - now split.
Qed.

Lemma displaced_tracks_are_never_released_witness :
  In 1%nat (attached_tracks cameraOn)
  /\ ~ In 1%nat
       (stoppedTracks
          (run [ClickStop; ClickStart (webcam 3); Deliver 0 AnimationFrame;
                ClickStop] cameraOnTwice))
  /\ ~ In 1%nat
       (attached_tracks
          (run [ClickStop; ClickStart (webcam 3); Deliver 0 AnimationFrame;
                ClickStop] cameraOnTwice)).
Proof.
  split; [left; reflexivity|].
  apply (displaced_tracks_are_never_released 1%nat
           [ClickStop; ClickStart (webcam 3); Deliver 0 AnimationFrame;
            ClickStop] cameraOnTwice).
  - vm_compute. intros [].
  - vm_compute. intros [H|[]]. discriminate.
  - repeat apply Forall_cons; try apply Forall_nil; cbn;
      intuition discriminate.
Defined.

(* ================================================================== *)
(** ** What keeps the loop going and what it paints *)
(* ================================================================== *)

Section Frames2.

Lemma aggregate_some_iff (resized : list FaceDetection) (st : State) :
  (exists st1, aggregate resized st = Some st1)
  <-> first_face_has_label resized.
Proof.
  unfold aggregate, first_face_has_label.
  destruct resized as [|face others].
  - split; [trivial | intros _; eauto].
  - unfold maxExpression, keys, reduce.
    destruct (expressions face) as [|[k v] rest]; cbn [map].
    + split; [intros [st1 H]; discriminate | intros H; now elim H].
    + split; [intros _; discriminate | intros _; eauto].
Qed.

Lemma drawFaces_content (resized : list FaceDetection) (st : State) :
  content (canvas (drawFaces resized st))
  = [DrawDetections resized; DrawFaceLandmarks resized;
     DrawFaceExpressions resized].
Proof. reflexivity. Qed.

Lemma aggregate_content (resized : list FaceDetection) (st st1 : State) :
  aggregate resized st = Some st1 ->
  content (canvas st1) = (content (canvas st) ++ labelPaint resized)%list.
Proof.
  unfold aggregate, labelPaint. destruct resized as [|face others].
  - intros H. injection H as <-. cbn. now rewrite app_nil_r.
  - destruct (maxExpression (expressions face)) as [label|]; [|discriminate].
    intros H. injection H as <-. unfold speakExpression.
    now destruct (String.eqb label _).
Qed.

Lemma aggregate_expression (resized : list FaceDetection) (st st1 : State) :
  aggregate resized st = Some st1 -> expression st1 <> "".
Proof.
  unfold aggregate. destruct resized as [|face others].
  - intros H. injection H as <-. discriminate.
  - destruct (maxExpression (expressions face)) as [label|]; [|discriminate].
    intros H. injection H as <-.
    assert (E : forall s, expression
                (draw (FillText "blue" "16px Arial" s (x (box face))
                         (y (box face) - 10))
                   (speakExpression label (setExpression s st))) = s).
    { intros s. unfold speakExpression.
      now destruct (String.eqb label _). }
    rewrite E. destruct label; discriminate.
Qed.

Lemma aggregate_speech (face : FaceDetection) (others : list FaceDetection)
    (label : string) (st st1 : State) :
  maxExpression (expressions face) = Some label ->
  aggregate (face :: others) st = Some st1 ->
  lastSpokenExpression st1 = label
  /\ speech st1
     = (speech st
        ++ if String.eqb label (lastSpokenExpression st) then []
           else utterance label)%list.
Proof.
  intros Hmax. unfold aggregate. rewrite Hmax.
  intros H. injection H as <-. unfold speakExpression.
  cbn [lastSpokenExpression setExpression].
  destruct (String.eqb label (lastSpokenExpression st)) eqn:E.
  - split; [symmetry; now apply String.eqb_eq | cbn; now rewrite app_nil_r].
  - now split.
Qed.

Lemma drawPredictions_content (predictions : list ObjectDetection)
    (st : State) :
  content (canvas (fold_left drawPrediction predictions st))
  = (content (canvas st) ++ flat_map predictionPaint predictions)%list.
Proof.
  revert st. induction predictions as [|pred rest IH]; intros st.
  - cbn. now rewrite app_nil_r.
  - cbn [fold_left flat_map]. rewrite IH, app_assoc. f_equal.
    unfold drawPrediction, predictionPaint. cbn.
    now rewrite <- app_assoc.
Qed.

Lemma nth_error_replace_nth (n : nat) (ls : list Loop) (l l' : Loop) :
  nth_error ls n = Some l ->
  nth_error (replace_nth n (Some l') ls) n = Some l'.
Proof.
  revert n. induction ls as [|l0 ls IH]; intros [|n] H; try discriminate.
  - reflexivity.
  - cbn in *. now apply IH.
Qed.

(** The face answer, delivered to a loop that waits for it. *)
Lemma deliver_faces (n : nat) (l : Loop) (resized : list FaceDetection)
    (st : State) :
  nth_error (loops st) n = Some l ->
  pending l = AwaitFaces ->
  first_face_has_label resized ->
  exists st1,
    aggregate resized (drawFaces resized st) = Some st1
    /\ loops st1 = loops st
    /\ deliver n (FacesSettled (Resolved resized)) st
       = set_loops
           (replace_nth n (Some (set_pending AwaitObjects l)) (loops st1))
           st1.
Proof.
  intros Hn Hp Hl.
  destruct (proj2 (aggregate_some_iff resized (drawFaces resized st)) Hl)
    as [st1 Hagg].
  exists st1. split; [exact Hagg|]. split.
  - now rewrite (aggregate_loops _ _ _ Hagg).
  - unfold deliver. rewrite Hn. unfold resume. rewrite Hp.
    unfold detect_faces. now rewrite Hagg.
Qed.

(** The object answer, delivered to a loop that waits for it. *)
Lemma deliver_objects (m : nat) (l : Loop)
    (predictions : list ObjectDetection) (st : State) :
  nth_error (loops st) m = Some l ->
  pending l = AwaitObjects ->
  deliver m (ObjectsSettled (Resolved predictions)) st
  = set_loops
      (replace_nth m (Some (set_pending AwaitFrame l))
         (loops (fold_left drawPrediction predictions st)))
      (fold_left drawPrediction predictions st).
Proof.
  intros Hm Hp. unfold deliver. rewrite Hm. unfold resume. rewrite Hp.
  reflexivity.
Qed.

Lemma step_loops_length (ev : Event) (st : State) :
  (length (loops (step ev st))
   <= length (loops st) + if is_button_start ev then 1 else 0)%nat.
Proof.
  destruct ev as [ok|dev| |dev transcript|n d|p e w h];
    cbn [step is_button_start].
  - rewrite loadModels_loops. lia.
  - unfold clickStart.
    destruct (startCamera_loops (render st) dev st) as [H | (_ & l & _ & H)];
      rewrite H; [lia|]. rewrite length_app. cbn. lia.
  - unfold clickStop. rewrite stopCamera_loops. lia.
  - rewrite onresult_loops. lia.
  - pose proof (deliver_loops_length n d st). lia.
  - cbn. lia.
Qed.

End Frames2.

(** X5.  A call of [detect] hands the next one to the browser exactly when
    its guard passes, both providers resolve and the first face of the
    frame, if there is one, has an expression to show; the loop then goes
    on with the closure and the display size it was created with. *)
Theorem loop_goes_on_iff (l : Loop) (faces : Settled (list FaceDetection))
    (objects : Settled (list ObjectDetection)) (st : State) :
  ((exists st' l', detect l faces objects st = (st', Some l'))
   <-> (guard_fails l st = false
        /\ exists resized predictions,
             faces = Resolved resized
             /\ objects = Resolved predictions
             /\ first_face_has_label resized))
  /\ (forall st' l', detect l faces objects st = (st', Some l') ->
        l' = {| closure := closure l; displaySize := displaySize l;
                pending := AwaitFrame |}).
Proof.
  unfold detect, detect_enter, detect_faces, detect_objects.
  destruct (guard_fails l st).
  { split; [split|]; [intros (? & ? & H) | intros [H _] | intros ? ? H];
      discriminate. }
  destruct faces as [resized|].
  2:{ split; [split|];
        [intros (? & ? & H) | intros (_ & ? & ? & H & _) | intros ? ? H];
        discriminate. }
  destruct (aggregate resized (drawFaces resized st)) as [st2|] eqn:E.
  - assert (Hl : first_face_has_label resized).
    { apply (aggregate_some_iff resized (drawFaces resized st)). eauto. }
    destruct objects as [predictions|].
    + split; [split|].
      * intros _. split; [reflexivity|]. now exists resized, predictions.
      * intros _. do 2 eexists. reflexivity.
      * intros st' l' H. now injection H as _ <-.
    + split; [split|];
        [intros (? & ? & H) | intros (_ & ? & ? & _ & H & _)
         | intros ? ? H]; discriminate.
  - split; [split|];
      [intros (? & ? & H); discriminate | | intros ? ? H; discriminate].
    intros (_ & r & p & Hr & _ & Hl). injection Hr as <-.
    apply (aggregate_some_iff resized (drawFaces resized st)) in Hl.
    destruct Hl as [st1 Hl]. congruence.
Qed.

(** X6.  The face provider's answer to a call of [detect] made before a
    stop is still applied after the stop: the overlay the stop has cleared
    is painted again, the expression text is set again and, the debounce
    slot having been reset, a face is spoken about, while the camera is
    reported off. *)
Theorem answer_after_stop_is_still_applied (n : nat) (l : Loop)
    (resized : list FaceDetection) (st : State) :
  nth_error (loops st) n = Some l ->
  pending l = AwaitFaces ->
  well_formed_frame resized ->
  let st' := deliver n (FacesSettled (Resolved resized)) (stopCamera st) in
  isCameraOn st' = false
  /\ statusMessage st' = "Camera stopped"
  /\ content (canvas st')
     = ([DrawDetections resized; DrawFaceLandmarks resized;
         DrawFaceExpressions resized] ++ labelPaint resized)%list
  /\ expression st' <> ""
  /\ (forall face others, resized = face :: others ->
        exists label,
          maxExpression (expressions face) = Some label
          /\ speech st' = (speech st ++ utterance label)%list).
Proof.
  intros Hn Hp Hwf st'. subst st'.
  destruct (stopCamera_writes st) as (Hon & Hmsg & _ & Hlast & _ & _).
  destruct (stopCamera_keeps st) as (_ & _ & Hsp & _).
  pose proof (deliver_untouched n (FacesSettled (Resolved resized))
                (stopCamera st)) as (_ & Hon' & Hmsg' & _).
  rewrite Hon', Hmsg'. split; [exact Hon|]. split; [exact Hmsg|].
  unfold deliver. rewrite stopCamera_loops, Hn. unfold resume. rewrite Hp.
  unfold detect_faces.
  assert (Hsome : exists st1,
             aggregate resized (drawFaces resized (stopCamera st)) = Some st1).
  { apply aggregate_some_iff. destruct resized as [|face others];
      [exact I | exact (proj1 Hwf)]. }
  destruct Hsome as [st1 Hagg]. rewrite Hagg. cbn [canvas expression speech
                                                     set_loops].
  split; [|split].
  - now rewrite (aggregate_content _ _ _ Hagg), drawFaces_content.
  - now apply aggregate_expression with resized
                (drawFaces resized (stopCamera st)).
  - intros face others ->.
    destruct (well_formed_label face others Hwf) as (label & Hmax & Hne).
    exists label. split; [exact Hmax|].
    destruct (aggregate_speech face others label _ _ Hmax Hagg) as [_ Hs].
    rewrite Hs. change (lastSpokenExpression (drawFaces (face :: others)
                                               (stopCamera st)))
      with (lastSpokenExpression (stopCamera st)).
    change (speech (drawFaces (face :: others) (stopCamera st)))
      with (speech (stopCamera st)).
    rewrite Hlast, Hsp. apply String.eqb_neq in Hne. now rewrite Hne.
Qed.

Lemma answer_after_stop_is_still_applied_witness :
  isCameraOn
    (deliver 0 (FacesSettled (Resolved happyFrame)) (stopCamera cameraOn))
  = false
  /\ speech
       (deliver 0 (FacesSettled (Resolved happyFrame)) (stopCamera cameraOn))
     = [Cancel; Speak "You look happy"]
  /\ expression
       (deliver 0 (FacesSettled (Resolved happyFrame)) (stopCamera cameraOn))
     = "happy (91.00%)".
Proof.
  pose proof (answer_after_stop_is_still_applied 0
                {| closure := readyRender; displaySize := (0%Z, 0%Z);
                   pending := AwaitFaces |}
                happyFrame cameraOn
                ltac:(reflexivity) ltac:(reflexivity)
                ltac:(simpl; intuition discriminate)) as (H & _).
  split; [exact H|]. split; vm_compute; reflexivity.
Defined.

(** X7.  The face provider's answer replaces whatever the overlay held by
    the face paint of its frame: the three face layers and the label of the
    first face.  The object provider's answer adds a box and a caption per
    predicted object to whatever the overlay holds when it arrives.  So
    when the two answers of a call of [detect] arrive with nothing in
    between, the overlay holds the paint of that frame and nothing else. *)
Theorem overlay_is_repainted_by_each_frame (n : nat) (l : Loop)
    (resized : list FaceDetection) (predictions : list ObjectDetection)
    (st : State) :
  nth_error (loops st) n = Some l ->
  pending l = AwaitFaces ->
  first_face_has_label resized ->
  content (canvas (deliver n (FacesSettled (Resolved resized)) st))
  = ([DrawDetections resized; DrawFaceLandmarks resized;
      DrawFaceExpressions resized] ++ labelPaint resized)%list
  /\ content
       (canvas
          (deliver n (ObjectsSettled (Resolved predictions))
             (deliver n (FacesSettled (Resolved resized)) st)))
     = framePaint resized predictions
  /\ (forall m l2 st2,
        nth_error (loops st2) m = Some l2 ->
        pending l2 = AwaitObjects ->
        content
          (canvas (deliver m (ObjectsSettled (Resolved predictions)) st2))
        = (content (canvas st2)
           ++ flat_map predictionPaint predictions)%list).
Proof.
  intros Hn Hp Hl.
  destruct (deliver_faces n l resized st Hn Hp Hl)
    as (st1 & Hagg & Hloops & Hd).
  assert (Hc : content (canvas (deliver n (FacesSettled (Resolved resized)) st))
               = ([DrawDetections resized; DrawFaceLandmarks resized;
                   DrawFaceExpressions resized] ++ labelPaint resized)%list).
  { rewrite Hd. cbn [canvas set_loops].
    now rewrite (aggregate_content _ _ _ Hagg), drawFaces_content. }
  assert (Hobj : forall m l2 st2,
             nth_error (loops st2) m = Some l2 ->
             pending l2 = AwaitObjects ->
             content
               (canvas (deliver m (ObjectsSettled (Resolved predictions)) st2))
             = (content (canvas st2)
                ++ flat_map predictionPaint predictions)%list).
  { intros m l2 st2 Hm Hp2.
    rewrite (deliver_objects m l2 predictions st2 Hm Hp2).
    cbn [canvas set_loops]. apply drawPredictions_content. }
  split; [exact Hc|]. split; [|exact Hobj].
  rewrite (Hobj n (set_pending AwaitObjects l)).
  - rewrite Hc. unfold framePaint. now rewrite <- app_assoc.
  - rewrite Hd. cbn [loops set_loops]. rewrite Hloops.
    now apply nth_error_replace_nth with l.
  - reflexivity.
Qed.

Lemma overlay_is_repainted_by_each_frame_witness :
  content
    (canvas (deliver 0 (FacesSettled (Resolved neutralFirstFrame)) cameraOn))
  = ([DrawDetections neutralFirstFrame; DrawFaceLandmarks neutralFirstFrame;
      DrawFaceExpressions neutralFirstFrame]
     ++ labelPaint neutralFirstFrame)%list
  /\ content
       (canvas
          (deliver 0 (ObjectsSettled (Resolved [cup]))
             (deliver 0 (FacesSettled (Resolved neutralFirstFrame))
                cameraOn)))
     = framePaint neutralFirstFrame [cup]
  /\ (forall m l2 st2,
        nth_error (loops st2) m = Some l2 ->
        pending l2 = AwaitObjects ->
        content (canvas (deliver m (ObjectsSettled (Resolved [cup])) st2))
        = (content (canvas st2) ++ flat_map predictionPaint [cup])%list).
Proof.
  apply (overlay_is_repainted_by_each_frame 0
           {| closure := readyRender; displaySize := (0%Z, 0%Z);
              pending := AwaitFaces |}
           neutralFirstFrame [cup] cameraOn).
  - reflexivity.
  - reflexivity.
  - simpl. discriminate.
Defined.

(** X8.  Detection loops come from button starts only, at most one from
    each: whatever the component goes through, it never runs more loops
    than it ran before plus the number of clicks on the start button. *)
Theorem loops_come_from_button_starts (evs : list Event) (st : State) :
  (length (loops (run evs st))
   <= length (loops st) + length (filter is_button_start evs))%nat.
Proof.
  revert st. induction evs as [|ev evs IH]; intros st.
  - cbn. lia.
  - cbn [run fold_left filter]. fold (run evs (step ev st)).
    specialize (IH (step ev st)).
    pose proof (step_loops_length ev st) as Hstep.
    destruct (is_button_start ev); cbn [length]; lia.
Qed.

(* ================================================================== *)
(** ** What holds whatever the component goes through *)
(* ================================================================== *)

Section Invariants.

(** How a start leaves the camera flag, the status text and the video. *)
Lemma startCamera_flag (cl : Render) (dev : Device) (st : State) :
  (isCameraOn (startCamera cl dev st) = isCameraOn st
   /\ statusMessage (startCamera cl dev st) = statusMessage st
   /\ (srcObject (video (startCamera cl dev st)) = srcObject (video st)
       \/ srcObject (video (startCamera cl dev st)) <> None))
  \/ (isCameraOn (startCamera cl dev st) = true
      /\ statusMessage (startCamera cl dev st) = "Camera started"
      /\ srcObject (video (startCamera cl dev st)) <> None).
Proof.
  open_start; cbn; try (left; repeat split; try (now left);
                        right; discriminate);
    right; repeat split; discriminate.
Qed.

Lemma flag_agrees_same (st st' : State) :
  isCameraOn st' = isCameraOn st ->
  statusMessage st' = statusMessage st ->
  flag_agrees st -> flag_agrees st'.
Proof. unfold flag_agrees. now intros -> ->. Qed.

Lemma flag_agrees_on (st : State) :
  isCameraOn st = true -> statusMessage st = "Camera started" ->
  flag_agrees st.
Proof. unfold flag_agrees. intros -> ->. repeat split; tauto. Qed.

Lemma flag_agrees_start (cl : Render) (dev : Device) (st : State) :
  flag_agrees st -> flag_agrees (startCamera cl dev st).
Proof.
  intros Hst. destruct (startCamera_flag cl dev st)
    as [(Hon & Hmsg & _) | (Hon & Hmsg & _)].
  - now apply flag_agrees_same with st.
  - now apply flag_agrees_on.
Qed.

Lemma flag_agrees_stop (st : State) : flag_agrees (stopCamera st).
Proof.
  destruct (stopCamera_writes st) as (Hon & Hmsg & _).
  unfold flag_agrees. rewrite Hon, Hmsg.
  repeat split; try discriminate; tauto.
Qed.

Lemma flag_agrees_step (ev : Event) (st : State) :
  flag_agrees st -> flag_agrees (step ev st).
Proof.
  intros Hst.
  destruct ev as [ok|dev| |dev transcript|n d|p e w h]; cbn [step].
  - unfold loadModels.
    destruct ok;
      (apply flag_agrees_same with st; [reflexivity | reflexivity | exact Hst]).
  - now apply flag_agrees_start.
  - apply flag_agrees_stop.
  - unfold onresult.
    assert (Hlog : forall line, flag_agrees (console_log line st)).
    { intros line. now apply flag_agrees_same with st. }
    destruct (includes (normalise transcript) "start camera").
    + now apply flag_agrees_start.
    + destruct (includes (normalise transcript) "stop camera");
        [apply flag_agrees_stop | apply Hlog].
  - destruct (deliver_untouched n d st) as (_ & Hon & Hmsg & _).
    now apply flag_agrees_same with st.
  - now apply flag_agrees_same with st.
Qed.

(** The whole start is its awaits taken one after the other. *)
Lemma startCamera_by_awaits (cl : Render) (dev : Device) (st : State) :
  startCamera cl dev st
  = match getUserMedia dev with
    | Rejected => console_log camera_error st
    | Resolved stream =>
        match play dev with
        | Rejected => console_log camera_error (startCamera_attach stream st)
        | Resolved _ => startCamera_played cl (startCamera_attach stream st)
        end
    end.
Proof.
  unfold startCamera. destruct (getUserMedia dev); [|reflexivity].
  now destruct (play dev).
Qed.

Lemma startCamera_played_flag (cl : Render) (st : State) :
  isCameraOn (startCamera_played cl st) = true
  /\ statusMessage (startCamera_played cl st) = "Camera started"
  /\ modelsLoaded (startCamera_played cl st) = modelsLoaded st
  /\ srcObject (video (startCamera_played cl st)) = srcObject (video st).
Proof.
  unfold startCamera_played, detectLoop, detect_enter.
  match goal with
  | |- context [guard_fails ?l ?s] => destruct (guard_fails l s)
  end; repeat split.
Qed.

Lemma flag_agrees_fine_step (ev : FineEvent) (st : State) :
  flag_agrees st -> flag_agrees (fine_step ev st).
Proof.
  intros Hst. destruct ev as [ev|stream| |cl|]; cbn [fine_step].
  - now apply flag_agrees_step.
  - now apply flag_agrees_same with st.
  - now apply flag_agrees_same with st.
  - destruct (startCamera_played_flag cl st) as (Hon & Hmsg & _).
    now apply flag_agrees_on.
  - now apply flag_agrees_same with st.
Qed.

Lemma fine_run_invariant (P : State -> Prop) :
  (forall ev st, P st -> P (fine_step ev st)) ->
  forall evs st, P st -> P (fine_run evs st).
Proof.
  intros Hstep evs. induction evs as [|ev evs IH]; intros st Hp.
  - exact Hp.
  - cbn [fine_run fold_left]. apply IH. now apply Hstep.
Qed.

Lemma flag_agrees_initial (v : Video) (c : Canvas) :
  flag_agrees (initialState v c).
Proof.
  unfold flag_agrees. cbn. repeat split; try discriminate. now left.
Qed.

Lemma ready_agrees_step (ev : Event) (st : State) :
  ready_agrees st -> ready_agrees (step ev st).
Proof.
  unfold ready_agrees. intros [Hm Hl].
  destruct ev as [ok|dev| |dev transcript|n d|p e w h]; cbn [step].
  - unfold loadModels. destruct ok; cbn; [|now split].
    split; [|exact Hl]. split; [discriminate | reflexivity].
  - unfold clickStart.
    destruct (startCamera_keeps (render st) dev st) as (-> & -> & _).
    split; [exact Hm|].
    destruct (startCamera_loops (render st) dev st)
      as [-> | (Hr & l & Hc & ->)]; [exact Hl|].
    apply Forall_app. split; [exact Hl|]. constructor; [|constructor].
    now rewrite Hc.
  - unfold clickStop. destruct (stopCamera_keeps st) as (-> & -> & _).
    now rewrite stopCamera_loops.
  - rewrite onresult_loops. split; [|exact Hl].
    unfold onresult.
    destruct (includes (normalise transcript) "start camera").
    + now destruct (startCamera_keeps firstRender dev
                      (console_log ("Voice Command: " ++ normalise transcript)
                         st)) as (-> & -> & _).
    + destruct (includes (normalise transcript) "stop camera");
        [|exact Hm].
      now destruct (stopCamera_keeps
                      (console_log ("Voice Command: " ++ normalise transcript)
                         st)) as (-> & -> & _).
  - destruct (deliver_untouched n d st) as (_ & _ & _ & -> & -> & _).
    split; [exact Hm|]. unfold deliver.
    destruct (nth_error (loops st) n) as [l|] eqn:En; [|exact Hl].
    destruct (resume l d st) as [[st1 l']|] eqn:Er; [|exact Hl].
    destruct (resume_untouched l d st st1 l' Er) as [_ Hls].
    cbn [loops set_loops]. rewrite Hls.
    apply replace_nth_Forall; [exact Hl|].
    destruct l' as [l1|]; [|exact I].
    destruct (resume_closure l l1 d st st1 Er) as [-> _].
    rewrite Forall_forall in Hl. apply Hl. now apply nth_error_In with n.
  - now split.
Qed.

Lemma guard_of_ready (l : Loop) (st : State) :
  closure_ready (closure l) = true ->
  guard_fails l st = paused (video st) || ended (video st).
Proof.
  unfold closure_ready, guard_fails.
  destruct (r_modelsLoaded (closure l)); [|discriminate].
  now destruct (r_cocoModel (closure l)).
Qed.

Lemma aggregate_speech_moves (resized : list FaceDetection)
    (st st1 : State) :
  aggregate resized st = Some st1 -> speech_moves st st1.
Proof.
  unfold aggregate, speech_moves. destruct resized as [|face others].
  - intros H. injection H as <-. left. split; [reflexivity | now right].
  - destruct (maxExpression (expressions face)) as [label|]; [|discriminate].
    intros H. injection H as <-. unfold speakExpression.
    cbn [lastSpokenExpression setExpression].
    destruct (String.eqb label (lastSpokenExpression st)).
    + left. split; [reflexivity | now left].
    + now right.
Qed.

Lemma drawPredictions_speech (predictions : list ObjectDetection)
    (st : State) :
  speech (fold_left drawPrediction predictions st) = speech st
  /\ lastSpokenExpression (fold_left drawPrediction predictions st)
     = lastSpokenExpression st.
Proof.
  revert st. induction predictions as [|pred rest IH]; intros st;
    [now split|]. cbn [fold_left].
  destruct (IH (drawPrediction st pred)) as [-> ->]. now split.
Qed.

Lemma speech_moves_same (st st' : State) :
  speech st' = speech st ->
  lastSpokenExpression st' = lastSpokenExpression st
  \/ lastSpokenExpression st' = "" ->
  speech_moves st st'.
Proof. intros H1 H2. left. now split. Qed.

Lemma step_speech_moves (ev : Event) (st : State) :
  speech_moves st (step ev st).
Proof.
  destruct ev as [ok|dev| |dev transcript|n d|p e w h]; cbn [step].
  - unfold loadModels. destruct ok; apply speech_moves_same; auto.
  - unfold clickStart.
    destruct (startCamera_keeps (render st) dev st)
      as (_ & _ & Hs & Hl & _).
    apply speech_moves_same; auto.
  - destruct (stopCamera_keeps st) as (_ & _ & Hs & _).
    destruct (stopCamera_writes st) as (_ & _ & _ & Hl & _).
    apply speech_moves_same; auto.
  - unfold onresult.
    destruct (includes (normalise transcript) "start camera").
    + destruct (startCamera_keeps firstRender dev
                  (console_log ("Voice Command: " ++ normalise transcript)
                     st)) as (_ & _ & Hs & Hl & _).
      apply speech_moves_same; [exact Hs | left; exact Hl].
    + destruct (includes (normalise transcript) "stop camera").
      * destruct (stopCamera_keeps
                    (console_log ("Voice Command: " ++ normalise transcript)
                       st)) as (_ & _ & Hs & _).
        destruct (stopCamera_writes
                    (console_log ("Voice Command: " ++ normalise transcript)
                       st)) as (_ & _ & _ & Hl & _).
        apply speech_moves_same; [exact Hs | right; exact Hl].
      * apply speech_moves_same; auto.
  - unfold deliver.
    destruct (nth_error (loops st) n) as [l|];
      [|apply speech_moves_same; auto].
    unfold resume, detect_faces, detect_objects.
    destruct (pending l), d as [|[resized|]|[predictions|]];
      try (apply speech_moves_same; now auto).
    + destruct (aggregate resized (drawFaces resized st)) as [st1|] eqn:E;
        [|apply speech_moves_same; now auto].
      apply (aggregate_speech_moves resized (drawFaces resized st) st1 E).
    + destruct (drawPredictions_speech predictions st) as [Hs Hl].
      apply speech_moves_same; cbn [speech lastSpokenExpression set_loops];
        auto.
  - apply speech_moves_same; auto.
Qed.

Lemma speech_agrees_moves (st st' : State) :
  speech_moves st st' -> speech_agrees st -> speech_agrees st'.
Proof.
  unfold speech_moves, speech_agrees, paired.
  intros [[Hs Hl] | Hs] [[labels Hp] Hlast].
  - rewrite Hs. split; [now exists labels|].
    destruct Hl as [-> | ->]; [exact Hlast | now left].
  - rewrite Hs. split.
    + exists (labels ++ [lastSpokenExpression st'])%list.
      rewrite flat_map_app, Hp. cbn [flat_map]. now rewrite app_nil_r.
    + right. now exists (speech st).
Qed.

End Invariants.

(** X9.  Whatever the component goes through after mounting, other
    handlers running between the awaits of a start included, the status
    message reads "Camera started" exactly while the camera flag is on, and
    it is one of the prompt, "Camera started" and "Camera stopped".  The
    flag does not tell that a stream is attached: a stop that comes while
    [play()] is pending leaves the camera reported on without one. *)
Theorem camera_flag_agrees_with_status (evs : list FineEvent)
    (v : Video) (c : Canvas) :
  (isCameraOn (fine_run evs (initialState v c)) = true
   <-> statusMessage (fine_run evs (initialState v c)) = "Camera started")
  /\ (statusMessage (fine_run evs (initialState v c))
      = "Say 'start camera' or use the buttons"
      \/ statusMessage (fine_run evs (initialState v c)) = "Camera started"
      \/ statusMessage (fine_run evs (initialState v c)) = "Camera stopped")
  /\ (isCameraOn
        (fine_run [Whole (ModelsSettled true);
                   StreamAttached {| getTracks := [1%nat] |};
                   Whole ClickStop; PlayResolved readyRender] mounted) = true
      /\ srcObject
           (video
              (fine_run [Whole (ModelsSettled true);
                         StreamAttached {| getTracks := [1%nat] |};
                         Whole ClickStop; PlayResolved readyRender]
                 mounted))
         = None).
Proof.
  split; [|split; [|now split]];
    apply (fine_run_invariant flag_agrees flag_agrees_fine_step evs
             (initialState v c) (flag_agrees_initial v c)).
Qed.

(** X10.  Whatever the component goes through after mounting, the models
    are marked loaded exactly when the object detector is in place, and
    every running loop was created with both: the guard of a running loop
    fails only because the video is paused or has ended. *)
Theorem running_loops_are_ready (evs : list Event) (v : Video) (c : Canvas) :
  let st := run evs (initialState v c) in
  (modelsLoaded st = true <-> cocoModel st <> None)
  /\ (forall l, In l (loops st) ->
        closure_ready (closure l) = true
        /\ guard_fails l st = paused (video st) || ended (video st)).
Proof.
  assert (H : ready_agrees (run evs (initialState v c))).
  { apply (run_invariant ready_agrees (fun _ => True)).
    - intros ev st _. apply ready_agrees_step.
    - apply Forall_trivial.
    - unfold ready_agrees. cbn. split; [|constructor].
      split; [discriminate | intros H; now elim H]. }
  destruct H as [Hm Hl]. split; [exact Hm|].
  intros l Hin. rewrite Forall_forall in Hl.
  split; [now apply Hl | apply guard_of_ready; now apply Hl].
Qed.

(** X11.  Whatever the component goes through after mounting, the calls
    made on the speech synthesiser are a sequence of pairs, a cancel and
    then a sentence "You look {label}", and the debounce slot is either
    reset or holds the label of the last sentence. *)
Theorem speech_log_is_paired (evs : list Event) (v : Video) (c : Canvas) :
  let st := run evs (initialState v c) in
  (exists labels, speech st = flat_map utterance labels)
  /\ (lastSpokenExpression st = ""
      \/ exists before,
           speech st
           = (before ++ [Cancel;
                         Speak ("You look " ++ lastSpokenExpression st)])%list).
Proof.
  apply (run_invariant speech_agrees (fun _ => True)).
  - intros ev st _. apply speech_agrees_moves. apply step_speech_moves.
  - apply Forall_trivial.
  - split; [now exists [] | now left].
Qed.

(** X12.  As long as the models have not loaded (their loading failed, or
    is still under way), the page shows "Loading models..." for a status
    whatever is clicked or said, the camera included; no detection loop
    runs, nothing is spoken and no expression is shown. *)
Theorem without_models_nothing_is_detected (evs : list Event)
    (v : Video) (c : Canvas) :
  Forall (fun ev => is_models_loaded ev = false) evs ->
  let st := run evs (initialState v c) in
  statusLine (view st) = "Loading models..."
  /\ loops st = []
  /\ speech st = []
  /\ expressionLine (view st) = None.
Proof.
  intros Hevs.
  assert (H : let st := run evs (initialState v c) in
              modelsLoaded st = false /\ loops st = []
              /\ speech st = [] /\ expression st = "").
  { apply (run_invariant
             (fun st => modelsLoaded st = false /\ loops st = []
                        /\ speech st = [] /\ expression st = "")
             (fun ev => is_models_loaded ev = false)); [|exact Hevs|easy].
    intros ev st Hev (Hm & Hl & Hs & He).
    destruct ev as [ok|dev| |dev transcript|n d|p e w h]; cbn [step].
    - destruct ok; [discriminate|]. now repeat split.
    - unfold clickStart.
      destruct (startCamera_keeps (render st) dev st)
        as (-> & _ & -> & _ & -> & _).
      rewrite startCamera_loops_not_ready;
        [now repeat split | unfold closure_ready, render; cbn; now rewrite Hm].
    - unfold clickStop. destruct (stopCamera_keeps st) as (-> & _ & -> & _).
      destruct (stopCamera_writes st) as (_ & _ & -> & _).
      rewrite stopCamera_loops. now repeat split.
    - rewrite onresult_loops. unfold onresult.
      destruct (includes (normalise transcript) "start camera").
      + destruct (startCamera_keeps firstRender dev
                    (console_log ("Voice Command: " ++ normalise transcript)
                       st)) as (-> & _ & -> & _ & -> & _).
        now repeat split.
      + destruct (includes (normalise transcript) "stop camera");
          [|now repeat split].
        destruct (stopCamera_keeps
                    (console_log ("Voice Command: " ++ normalise transcript)
                       st)) as (-> & _ & -> & _).
        destruct (stopCamera_writes
                    (console_log ("Voice Command: " ++ normalise transcript)
                       st)) as (_ & _ & -> & _).
        now repeat split.
    - unfold deliver. rewrite Hl. destruct n; cbn; now repeat split.
    - now repeat split. }
  destruct H as (Hm & Hl & Hs & He). unfold view. cbn.
  rewrite Hm, He. now repeat split.
Qed.

Lemma without_models_nothing_is_detected_witness :
  statusLine
    (view (run [ModelsSettled false; ClickStart (webcam 1);
                VoiceResult (webcam 2) "start camera";
                Deliver 0 AnimationFrame] mounted))
  = "Loading models..."
  /\ loops (run [ModelsSettled false; ClickStart (webcam 1);
                 VoiceResult (webcam 2) "start camera";
                 Deliver 0 AnimationFrame] mounted) = []
  /\ speech (run [ModelsSettled false; ClickStart (webcam 1);
                  VoiceResult (webcam 2) "start camera";
                  Deliver 0 AnimationFrame] mounted) = []
  /\ expressionLine
       (view (run [ModelsSettled false; ClickStart (webcam 1);
                   VoiceResult (webcam 2) "start camera";
                   Deliver 0 AnimationFrame] mounted)) = None.
Proof.
  apply (without_models_nothing_is_detected
           [ModelsSettled false; ClickStart (webcam 1);
            VoiceResult (webcam 2) "start camera";
            Deliver 0 AnimationFrame] blankVideo blankCanvas).
  repeat constructor.
Defined.

(* ================================================================== *)
(** ** More on commands and labels *)
(* ================================================================== *)

Section Trimming.

Lemma append_assoc (a b c : string) : (a ++ b) ++ c = a ++ b ++ c.
Proof. induction a as [|ch a IH]; cbn; [reflexivity | now rewrite IH]. Qed.

Lemma trimStart_split (s : string) : exists ws, s = ws ++ trimStart s.
Proof.
  induction s as [|ch s [ws IH]]; cbn.
  - now exists "".
  - destruct (is_space ch).
    + exists (String ch ws). cbn. now rewrite <- IH.
    + now exists "".
Qed.

Lemma trimEnd_split (s : string) : exists ws, s = trimEnd s ++ ws.
Proof.
  induction s as [|ch s [ws IH]]; cbn.
  - now exists "".
  - destruct (trimEnd s) as [|d u].
    + destruct (is_space ch); [exists (String ch ws) | exists ws];
        cbn in *; congruence.
    + exists ws. cbn in *. congruence.
Qed.

(** [trimStart] stops at the latest at a character that is not white
    space, [trimEnd] likewise from the other end. *)
Lemma trimStart_upto (a b : string) (ch : ascii) :
  is_space ch = false ->
  trimStart (a ++ String ch b) = trimStart a ++ String ch b.
Proof.
  intros Hch. induction a as [|e a IH]; cbn.
  - now rewrite Hch.
  - now destruct (is_space e).
Qed.

Lemma trimEnd_downto (a b : string) (ch : ascii) :
  is_space ch = false ->
  trimEnd (a ++ String ch b) = a ++ String ch (trimEnd b).
Proof.
  intros Hch. induction a as [|e a IH]; cbn.
  - rewrite Hch. now destruct (trimEnd b).
  - rewrite IH. now destruct a.
Qed.

(** A phrase that neither begins nor ends with white space occurs in the
    trimmed string exactly when it occurs in the string. *)
Lemma includes_trim (s phrase front rest : string) (first final : ascii) :
  phrase = String first rest ->
  phrase = front ++ String final "" ->
  is_space first = false ->
  is_space final = false ->
  includes (trim s) phrase = includes s phrase.
Proof.
  intros Hfirst Hfinal Hsp1 Hsp2.
  apply eq_true_iff_eq. rewrite !includes_iff_occurs. unfold occurs_in.
  split.
  - intros (pre & post & H).
    destruct (trimEnd_split s) as [ws2 H2].
    destruct (trimStart_split (trimEnd s)) as [ws1 H1].
    exists (ws1 ++ pre), (post ++ ws2).
    rewrite H2 at 1. rewrite H1 at 1. fold (trim s). rewrite H.
    now rewrite !append_assoc.
  - intros (pre & post & ->).
    exists (trimStart pre), (trimEnd post). unfold trim.
    assert (E1 : pre ++ phrase ++ post
                 = (pre ++ front) ++ String final post).
    { rewrite Hfinal at 1. now rewrite !append_assoc. }
    rewrite E1, trimEnd_downto by exact Hsp2.
    assert (E2 : (pre ++ front) ++ String final (trimEnd post)
                 = pre ++ String first (rest ++ trimEnd post)).
    { rewrite append_assoc. f_equal.
      change (String final (trimEnd post))
        with (String final "" ++ trimEnd post).
      rewrite <- append_assoc, <- Hfinal, Hfirst. reflexivity. }
    rewrite E2, trimStart_upto by exact Hsp1.
    now rewrite Hfirst.
Qed.

End Trimming.

(** X13.  Trimming the transcript never changes which command is heard:
    the transcript in lower case contains a command phrase exactly when the
    trimmed one does. *)
Theorem trimming_never_changes_the_command (t : string) :
  includes (normalise t) "start camera"
  = includes (toLowerCase t) "start camera"
  /\ includes (normalise t) "stop camera"
     = includes (toLowerCase t) "stop camera"
  /\ classify t
     = (if includes (toLowerCase t) "start camera" then StartCamera
        else if includes (toLowerCase t) "stop camera" then StopCamera
        else Unknown).
Proof.
  assert (H1 : includes (normalise t) "start camera"
               = includes (toLowerCase t) "start camera").
  { unfold normalise. rewrite toLowerCase_trim.
    now apply includes_trim with "start camer" "tart camera" "s"%char
                                 "a"%char. }
  assert (H2 : includes (normalise t) "stop camera"
               = includes (toLowerCase t) "stop camera").
  { unfold normalise. rewrite toLowerCase_trim.
    now apply includes_trim with "stop camer" "top camera" "s"%char
                                 "a"%char. }
  repeat split; [exact H1 | exact H2 |].
  unfold classify. now rewrite H1, H2.
Qed.

(** X14.  A label whose score is strictly above the score of every other
    label of the expressions object is the one selected, wherever it
    stands among the keys. *)
Theorem strict_maximum_is_selected (obj : list (string * Q)) (k : string) :
  In k (keys obj) ->
  (forall k', In k' (keys obj) -> k' <> k ->
     score_of obj k' < score_of obj k) ->
  maxExpression obj = Some k.
Proof.
  intros Hin Hmax. unfold maxExpression, reduce.
  destruct (keys obj) as [|a l] eqn:Hk; [now elim Hin|].
  destruct (fold_pick_split obj l a) as (before & after & Heq & Hle & Hlt).
  set (m := fold_left (pick obj) l a) in *.
  f_equal. destruct (string_dec m k) as [E|Hne]; [exact E|].
  assert (Hm : In m (a :: l)).
  { rewrite Heq. apply in_or_app. right. now left. }
  pose proof (Hmax m Hm Hne) as Hlow.
  rewrite Heq in Hin. apply in_app_or in Hin as [Hb | [Hb | Ha]].
  - elim (Qlt_not_le _ _ Hlow). now apply Hle.
  - now elim Hne.
  - elim (Qlt_irrefl (score_of obj k)).
    apply Qlt_trans with (score_of obj m); [now apply Hlt | exact Hlow].
Qed.

Lemma strict_maximum_is_selected_witness :
  maxExpression [("neutral", 5 # 100); ("happy", 91 # 100); ("sad", 4 # 100)]
  = Some "happy".
Proof.
  apply (strict_maximum_is_selected
           [("neutral", 5 # 100); ("happy", 91 # 100); ("sad", 4 # 100)]
           "happy").
  - cbn. tauto.
  - cbn. intros k' [<- | [<- | [<- | []]]] Hne;
      try (now elim Hne); reflexivity.
Defined.

(** X15.  A stop that follows a start releases the tracks of the stream the
    start acquired, also when its playback was refused; when the device did
    not answer, it releases those of the stream that was attached before.
    The tracks of a stream the start has displaced are not among them. *)
Theorem stop_after_start_releases_the_new_stream (cl : Render)
    (dev : Device) (st : State) :
  stoppedTracks (stopCamera (startCamera cl dev st))
  = (stoppedTracks st
     ++ match getUserMedia dev with
        | Resolved stream => getTracks stream
        | Rejected => attached_tracks st
        end)%list
  /\ srcObject (video (stopCamera (startCamera cl dev st))) = None
  /\ isCameraOn (stopCamera (startCamera cl dev st)) = false.
Proof.
  destruct (stopCamera_tracks (startCamera cl dev st)) as [Htr _].
  destruct (startCamera_keeps cl dev st) as (_ & _ & _ & _ & _ & Hst).
  destruct (stopCamera_writes (startCamera cl dev st))
    as (Hon & _ & _ & _ & _ & Hsrc).
  rewrite Htr, Hst. unfold attached_tracks at 1.
  rewrite startCamera_srcObject.
  split; [|now split].
  now destruct (getUserMedia dev).
Qed.

(** X16.  Whatever the component goes through after mounting, other
    handlers running between the awaits of a start included, the page's
    camera indicator is green exactly when it reads "Camera ON", and once
    the models are loaded it reads "Camera ON" exactly when the status line
    reads "Camera started"; before that the status line reads "Loading
    models..." whatever the indicator says. *)
Theorem page_indicator_agrees_with_status_line (evs : list FineEvent)
    (v : Video) (c : Canvas) :
  (cameraLabel (view (fine_run evs (initialState v c))) = "Camera ON"
   <-> cameraColor (view (fine_run evs (initialState v c))) = "green")
  /\ (modelsLoaded (fine_run evs (initialState v c)) = true ->
      (cameraLabel (view (fine_run evs (initialState v c))) = "Camera ON"
       <-> statusLine (view (fine_run evs (initialState v c)))
           = "Camera started"))
  /\ (modelsLoaded (fine_run evs (initialState v c)) = false ->
      statusLine (view (fine_run evs (initialState v c)))
      = "Loading models...").
Proof.
  pose proof (fine_run_invariant flag_agrees flag_agrees_fine_step evs
                (initialState v c) (flag_agrees_initial v c)) as (Hmsg & _).
  unfold view. cbn.
  destruct (isCameraOn (fine_run evs (initialState v c))) eqn:Eon.
  - split; [now split|]. split.
    + intros Hml. rewrite Hml.
      split; [intros _; now apply Hmsg | reflexivity].
    + now intros ->.
  - split; [split; discriminate|]. split.
    + intros Hml. rewrite Hml. split; [discriminate|].
      intros Hs. apply Hmsg in Hs. discriminate.
    + now intros ->.
Qed.
